(** * conference.py: the conference-central endpoints API

    A shallow embedding of [conference-central/conference.py]: the filter
    compiler ([_format_filters]), the query builder ([_get_query]), the
    profile and conference lifecycle functions and the transactional
    registration ([_conference_registration]), followed by the properties
    the specification states about them.

    Python integers are unbounded, hence [Z]. Strings are [string]. The
    datastore is an explicit [Store] threaded through a state-and-exception
    monad; [ndb.transactional] is the wrapper that discards the writes of a
    body that raises. *)

From Stdlib Require Import ZArith Ascii String List.
From stdpp Require Import base option list strings gmap fin_maps.

Local Open Scope string_scope.
Local Open Scope Z_scope.

(** ** Exceptions *)

(** The exception classes the module raises or lets escape, each with the
    message it is built from.  [NotFoundException] keeps the prefix of its
    format string only. *)
Inductive Exc : Type :=
  | UnauthorizedException (msg : string)
  | BadRequestException (msg : string)
  | NotFoundException (msg : string)
  | ForbiddenException (msg : string)
  | ConflictException (msg : string)
  | ValueError (msg : string)
  | NameError (name : string)
  | AttributeError (msg : string)
  | BadValueError (msg : string)
  | UnicodeEncodeError.

Definition result (A : Type) : Type := Exc + A.

#[global] Instance result_ret : MRet result := λ A x, inr x.
#[global] Instance result_bind : MBind result := λ A B f m,
  match m with
  | inl e => inl e
  | inr x => f x
  end.

#[global] Instance result_fmap : FMap result := λ A B f m,
  match m with
  | inl e => inl e
  | inr x => inr (f x)
  end.

Definition is_ok {A} (r : result A) : bool :=
  match r with inr _ => true | inl _ => false end.

(** ** Query filtering constants *)

Definition OPERATORS : gmap string string :=
  list_to_map
    [ ("EQ", "="); ("GT", ">"); ("GTEQ", ">="); ("LT", "<"); ("LTEQ", "<=");
      ("NE", "!=") ].

Definition FIELDS : gmap string string :=
  list_to_map
    [ ("CITY", "city"); ("TOPIC", "topics"); ("MONTH", "month");
      ("MAX_ATTENDEES", "maxAttendees") ].

(** ** Builtins used by the module *)

Definition is_digit (c : ascii) : bool :=
  ((48 <=? nat_of_ascii c) && (nat_of_ascii c <=? 57))%nat.

Definition digit_val (c : ascii) : Z := Z.of_nat (nat_of_ascii c - 48).

(** [string.whitespace]: space, tab, newline, vertical tab, form feed,
    carriage return. *)
Definition is_space (c : ascii) : bool :=
  let n := nat_of_ascii c in
  ((n =? 32) || ((9 <=? n) && (n <=? 13)))%nat.

Fixpoint lstrip (l : list ascii) : list ascii :=
  match l with
  | c :: l' => if is_space c then lstrip l' else l
  | [] => []
  end.

Definition strip (l : list ascii) : list ascii :=
  rev (lstrip (rev (lstrip l))).

Fixpoint digits_value (acc : Z) (l : list ascii) : option Z :=
  match l with
  | [] => Some acc
  | c :: l' =>
      if is_digit c then digits_value (10 * acc + digit_val c) l' else None
  end.

(** The builtin [int] on a string: surrounding white space, an optional
    sign and at least one decimal digit; [None] stands for the
    [ValueError] it raises on anything else. *)
Definition py_int (s : string) : option Z :=
  match strip (list_ascii_of_string s) with
  | [] => None
  | "-"%char :: d :: l => Z.opp <$> digits_value 0 (d :: l)
  | "+"%char :: d :: l => digits_value 0 (d :: l)
  | l => digits_value 0 l
  end.

Definition int (s : string) : result Z :=
  match py_int s with
  | Some z => inr z
  | None => inl (ValueError "invalid literal for int() with base 10")
  end.

(** Truth value of an optional string ([None] and the empty string are
    false). *)
Definition truthy (o : option string) : bool :=
  match o with
  | Some s => negb (String.eqb s "")
  | None => false
  end.

(** ** Filter compiler *)

(** A [ConferenceQueryForm] message: one raw filter clause. *)
Record ConferenceQueryForm : Type := mkQueryForm {
  field : string;
  operator : string;
  value : string
}.

(** The value slot of a formatted filter holds the raw string until
    [_get_query] overwrites it with an integer for the numeric fields. *)
Inductive FilterValue : Type :=
  | VStr (s : string)
  | VInt (z : Z).

(** The dictionary [filtr] built for each clause. *)
Record Filtr : Type := mkFiltr {
  f_field : string;
  f_operator : string;
  f_value : FilterValue
}.

Definition invalid_field_or_operator : Exc :=
  BadRequestException "Filter contains invalid field or operator.".

Definition MultipleInequalityFields : Exc :=
  BadRequestException "Inequality filter is allowed on only one field.".

(** The body of the [for f in filters] loop of [_format_filters], with the
    two loop-carried variables as accumulators. *)
Fixpoint format_filters_loop (filters : list ConferenceQueryForm)
    (inequality_field : option string) (formatted_filters : list Filtr)
    : result (option string * list Filtr) :=
  match filters with
  | [] => inr (inequality_field, formatted_filters)
  | f :: rest =>
      match FIELDS !! field f, OPERATORS !! operator f with
      | Some fld, Some op =>
          let filtr := mkFiltr fld op (VStr (value f)) in
          if negb (String.eqb op "=") then
            if truthy inequality_field
               && negb (bool_decide (inequality_field = Some fld))
            then inl MultipleInequalityFields
            else format_filters_loop rest (Some fld)
                   (formatted_filters ++ [filtr])
          else format_filters_loop rest inequality_field
                 (formatted_filters ++ [filtr])
      | _, _ => inl invalid_field_or_operator
      end
  end.

Definition _format_filters (filters : list ConferenceQueryForm)
    : result (option string * list Filtr) :=
  format_filters_loop filters None [].

(** ** Conference query engine *)

Record FilterNode : Type := mkFilterNode {
  fn_name : string;
  fn_opsymbol : string;
  fn_value : FilterValue
}.

(** A query over the Conference kind: its sort orders and its filters, each
    in the order they were added. *)
Record Query : Type := mkQuery {
  orders : list string;
  filters : list FilterNode
}.

Definition Conference_query : Query := mkQuery [] [].
Definition order (q : Query) (prop : string) : Query :=
  mkQuery (orders q ++ [prop]) (filters q).
Definition filter_by (q : Query) (node : FilterNode) : Query :=
  mkQuery (orders q) (filters q ++ [node]).

Definition numeric_field (name : string) : bool :=
  bool_decide (name ∈ ["month"; "maxAttendees"]).

(** The [ValueError] of [int]. *)
Definition InvalidFilterValue : Exc :=
  ValueError "invalid literal for int() with base 10".

(** The [for filtr in filters] loop of [_get_query]. *)
Fixpoint get_query_loop (fs : list Filtr) (q : Query) : result Query :=
  match fs with
  | [] => inr q
  | filtr :: rest =>
      v ← (if numeric_field (f_field filtr)
           then match f_value filtr with
                | VStr s => VInt <$> int s
                | VInt z => inr (VInt z)
                end
           else inr (f_value filtr));
      get_query_loop rest
        (filter_by q (mkFilterNode (f_field filtr) (f_operator filtr) v))
  end.

Definition _get_query (request_filters : list ConferenceQueryForm)
    : result Query :=
  let q := Conference_query in
  '(inequality_filter, fs) ← _format_filters request_filters;
  let q :=
    if negb (truthy inequality_filter) then order q "name"
    else order (order q (default "" inequality_filter)) "name" in
  get_query_loop fs q.


(** ** Calendar dates *)

Record date : Type := mkDate {
  d_year : Z;
  d_month : Z;
  d_day : Z
}.

Definition is_leap (y : Z) : bool :=
  (y mod 4 =? 0) && (negb (y mod 100 =? 0) || (y mod 400 =? 0)).

Definition days_in_month (y m : Z) : Z :=
  if m =? 2 then (if is_leap y then 29 else 28)
  else if (m =? 4) || (m =? 6) || (m =? 9) || (m =? 11) then 30
  else 31.

Definition in_range (lo hi : ascii) (c : ascii) : bool :=
  ((nat_of_ascii lo <=? nat_of_ascii c)
   && (nat_of_ascii c <=? nat_of_ascii hi))%nat.

(** Two characters read as a two-digit number, one character read as a
    digit, and the first alternative that matches. *)
Definition two_chars (p1 p2 : ascii → bool) (l : list ascii)
    : option (Z * list ascii) :=
  match l with
  | a :: b :: rest =>
      if p1 a && p2 b then Some (10 * digit_val a + digit_val b, rest)
      else None
  | _ => None
  end.

Definition one_char (p : ascii → bool) (l : list ascii)
    : option (Z * list ascii) :=
  match l with
  | a :: rest => if p a then Some (digit_val a, rest) else None
  | [] => None
  end.

Definition or_else {A} (x y : option A) : option A :=
  match x with Some _ => x | None => y end.

(** [%Y] is [\d\d\d\d]. *)
Definition directive_Y (l : list ascii) : option (Z * list ascii) :=
  match l with
  | a :: b :: c :: d :: rest =>
      if is_digit a && is_digit b && is_digit c && is_digit d
      then Some (1000 * digit_val a + 100 * digit_val b
                 + 10 * digit_val c + digit_val d, rest)
      else None
  | _ => None
  end.

(** [%m] is [1[0-2]|0[1-9]|[1-9]]. *)
Definition directive_m (l : list ascii) : option (Z * list ascii) :=
  or_else (two_chars (Ascii.eqb "1") (in_range "0" "2") l)
    (or_else (two_chars (Ascii.eqb "0") (in_range "1" "9") l)
       (one_char (in_range "1" "9") l)).

(** [%d] is [3[01]|[12]\d|0[1-9]|[1-9]| [1-9]]. *)
Definition directive_d (l : list ascii) : option (Z * list ascii) :=
  or_else (two_chars (Ascii.eqb "3") (in_range "0" "1") l)
    (or_else (two_chars (in_range "1" "2") is_digit l)
       (or_else (two_chars (Ascii.eqb "0") (in_range "1" "9") l)
          (or_else (one_char (in_range "1" "9") l)
             (match l with
              | " "%char :: rest => one_char (in_range "1" "9") rest
              | _ => None
              end)))).

Definition dash (l : list ascii) : option (list ascii) :=
  match l with
  | "-"%char :: rest => Some rest
  | _ => None
  end.

(** The library's [datetime.strptime(s, "%Y-%m-%d").date()]: the pattern is
    matched at the start of [s], the whole of [s] has to be consumed and
    the three numbers have to name a day of the calendar. [None] stands
    for the [ValueError] raised otherwise. *)
Definition parse_Ymd (s : string) : option date :=
  '(y, l) ← directive_Y (list_ascii_of_string s);
  l ← dash l;
  '(m, l) ← directive_m l;
  l ← dash l;
  '(d, l) ← directive_d l;
  match l with
  | [] =>
      if (1 <=? y) && (1 <=? d) && (d <=? days_in_month y m)
      then Some (mkDate y m d) else None
  | _ => None
  end.

(** The [ValueError] of [strptime]; its message, which varies with the
    way the string fails, is not kept apart. *)
Definition InvalidDate : Exc :=
  ValueError "time data does not match format '%Y-%m-%d'".

Definition strptime_Ymd (s : string) : result date :=
  match parse_Ymd s with
  | Some d => inr d
  | None => inl InvalidDate
  end.

(** The slice [s[:n]]. *)
Definition slice_to (n : nat) (s : string) : string :=
  string_of_list_ascii (take n (list_ascii_of_string s)).

Definition digit_char (z : Z) : ascii := ascii_of_nat (48 + Z.to_nat z).

Definition two_digits (z : Z) : string :=
  String (digit_char (z / 10)) (String (digit_char (z mod 10)) "").

(** [str] of a date: its ISO form. *)
Definition str_of_date (d : date) : string :=
  two_digits (d_year d / 100) +:+ two_digits (d_year d mod 100) +:+ "-"
  +:+ two_digits (d_month d) +:+ "-" +:+ two_digits (d_day d).

(** ** Data model *)

(** Modelled from the spec: the identity resolver of section 6 gives a
    stable id, a display name and an email for the caller;
    [utils.get_user_id] is not part of the source tree. *)
Record User : Type := mkUser {
  get_user_id : string;
  nickname : string;
  email : string
}.

(** Modelled from the spec: the TeeShirtSize enumeration is declared in
    models.py, which is not part of the source tree; conference.py names
    [NOT_SPECIFIED] only. *)
Inductive TeeShirtSize : Type :=
  | NOT_SPECIFIED | XS_M | XS_W | S_M | S_W | M_M | M_W | L_M | L_W
  | XL_M | XL_W | XXL_M | XXL_W | XXXL_M | XXXL_W.

Definition all_sizes : list TeeShirtSize :=
  [ NOT_SPECIFIED; XS_M; XS_W; S_M; S_W; M_M; M_W; L_M; L_W;
    XL_M; XL_W; XXL_M; XXL_W; XXXL_M; XXXL_W ].

(** [str] of an enumeration member is its name. *)
Definition str_of_size (t : TeeShirtSize) : string :=
  match t with
  | NOT_SPECIFIED => "NOT_SPECIFIED"
  | XS_M => "XS_M" | XS_W => "XS_W" | S_M => "S_M" | S_W => "S_W"
  | M_M => "M_M" | M_W => "M_W" | L_M => "L_M" | L_W => "L_W"
  | XL_M => "XL_M" | XL_W => "XL_W" | XXL_M => "XXL_M" | XXL_W => "XXL_W"
  | XXXL_M => "XXXL_M" | XXXL_W => "XXXL_W"
  end.

(** [getattr(TeeShirtSize, name)]. *)
Definition size_of_name (name : string) : option TeeShirtSize :=
  head (filter (λ t, str_of_size t = name) all_sizes).

(** The key of a Conference entity: the id of the Profile it is parented
    under and the id allocated for it. The websafe (urlsafe) form that
    travels in requests is identified with the key it encodes. *)
Abbreviation ConfKey := (string * positive)%type.

(** Modelled from the spec: the Profile entity of section 3 (models.py is
    not part of the source tree). [teeShirtSize] is stored as the name of
    the enumeration member. *)
Record Profile : Type := mkProfile {
  userId : string;
  displayName : string;
  mainEmail : string;
  teeShirtSize : string;
  conferenceKeysToAttend : list ConfKey
}.

(** Modelled from the spec: the Conference entity of section 3 (models.py
    is not part of the source tree). *)
Record Conference : Type := mkConference {
  name : string;
  description : option string;
  organizerUserId : string;
  topics : list string;
  city : string;
  startDate : option date;
  month : Z;
  endDate : option date;
  maxAttendees : Z;
  seatsAvailable : Z
}.

(** The messages. A field that was not set reads as [None]; a repeated
    field that was not set reads as the empty list. *)
Record ProfileMiniForm : Type := mkProfileMiniForm {
  pm_displayName : option string;
  pm_teeShirtSize : option TeeShirtSize
}.

Record ProfileForm : Type := mkProfileForm {
  pf_displayName : string;
  pf_mainEmail : string;
  pf_teeShirtSize : TeeShirtSize;
  pf_conferenceKeysToAttend : list ConfKey
}.

Record ConferenceForm : Type := mkConferenceForm {
  cf_name : option string;
  cf_description : option string;
  cf_organizerUserId : option string;
  cf_topics : list string;
  cf_city : option string;
  cf_startDate : option string;
  cf_month : option Z;
  cf_maxAttendees : option Z;
  cf_seatsAvailable : option Z;
  cf_endDate : option string;
  cf_websafeKey : option ConfKey;
  cf_organizerDisplayName : option string
}.

(** The DEFAULTS dictionary. *)
Definition DEFAULT_city : string := "Default City".
Definition DEFAULT_maxAttendees : Z := 0.
Definition DEFAULT_seatsAvailable : Z := 0.
Definition DEFAULT_topics : list string := ["Default"; "Topic"].

(** ** The datastore and the monad of the request handlers *)

(** A task on the default queue: the organizer's email and the conference
    form it was created from. *)
Record Task : Type := mkTask {
  task_email : string;
  task_conferenceInfo : ConferenceForm
}.

Record Store : Type := mkStore {
  profiles : gmap string Profile;
  conferences : gmap ConfKey Conference;
  next_id : positive;
  tasks : list Task
}.

Definition empty_store : Store := mkStore ∅ ∅ 1%positive [].

(** A handler runs on a store and ends with a value or an exception; the
    writes made before an exception stay. *)
Definition M (A : Type) : Type := Store → result A * Store.

#[global] Instance M_ret : MRet M := λ A x st, (inr x, st).
#[global] Instance M_bind : MBind M := λ A B f m st,
  match m st with
  | (inl e, st') => (inl e, st')
  | (inr x, st') => f x st'
  end.

Definition raise {A} (e : Exc) : M A := λ st, (inl e, st).

Definition lift {A} (r : result A) : M A := λ st, (r, st).

Definition get_profile (key : string) : M (option Profile) :=
  λ st, (inr (profiles st !! key), st).

Definition put_profile (key : string) (p : Profile) : M unit :=
  λ st, (inr (),
         mkStore (<[key := p]> (profiles st)) (conferences st)
                 (next_id st) (tasks st)).

Definition get_conference (key : ConfKey) : M (option Conference) :=
  λ st, (inr (conferences st !! key), st).

Definition put_conference (key : ConfKey) (c : Conference) : M unit :=
  λ st, (inr (),
         mkStore (profiles st) (<[key := c]> (conferences st))
                 (next_id st) (tasks st)).

(** [Conference.allocate_ids(size=1, parent=p_key)[0]]: an id that no
    earlier allocation returned. *)
Definition allocate_id : M positive :=
  λ st, (inr (next_id st),
         mkStore (profiles st) (conferences st)
                 (Pos.succ (next_id st)) (tasks st)).

Definition taskqueue_add (t : Task) : M unit :=
  λ st, (inr (),
         mkStore (profiles st) (conferences st) (next_id st)
                 (tasks st ++ [t])).

(** [ndb.transactional]: the writes of a body that raises are not
    committed. *)
Definition transactional {A} (body : M A) : M A :=
  λ st, match body st with
        | (inl e, _) => (inl e, st)
        | (inr x, st') => (inr x, st')
        end.

(** ** Message copies *)

(** [str] of a unicode string encodes it as ASCII and raises on a
    character outside ASCII. *)
Definition str_of_unicode (s : string) : result string :=
  if forallb (λ c, (nat_of_ascii c <? 128)%nat) (list_ascii_of_string s)
  then inr s else inl UnicodeEncodeError.

Definition _copy_profile_to_form (prof : Profile) : result ProfileForm :=
  match size_of_name (teeShirtSize prof) with
  | Some t =>
      inr (mkProfileForm (displayName prof) (mainEmail prof) t
             (conferenceKeysToAttend prof))
  | None => inl (AttributeError "TeeShirtSize")
  end.

Definition str_of_date_field (d : option date) : string :=
  match d with
  | Some d => str_of_date d
  | None => "None"
  end.

Definition _copy_conference_to_form (key : ConfKey) (conf : Conference)
    (displayName : string) : ConferenceForm :=
  mkConferenceForm (Some (name conf)) (description conf)
    (Some (organizerUserId conf)) (topics conf) (Some (city conf))
    (Some (str_of_date_field (startDate conf))) (Some (month conf))
    (Some (maxAttendees conf)) (Some (seatsAvailable conf))
    (Some (str_of_date_field (endDate conf))) (Some key)
    (if truthy (Some displayName) then Some displayName else None).

(** ** Profiles *)

Definition Unauthenticated : Exc :=
  UnauthorizedException "Authorization required".

(** Returns the entity together with its key. *)
Definition _get_profile_from_user (user : option User)
    : M (string * Profile) :=
  match user with
  | None => raise Unauthenticated
  | Some user =>
      let user_id := get_user_id user in
      let key := user_id in
      profile ← get_profile key;
      match profile with
      | Some profile => mret (key, profile)
      | None =>
          let profile :=
            mkProfile user_id (nickname user) (email user)
              (str_of_size NOT_SPECIFIED) [] in
          put_profile key profile;;
          mret (key, profile)
      end
  end.

Definition set_displayName (prof : Profile) (v : string) : Profile :=
  mkProfile (userId prof) v (mainEmail prof) (teeShirtSize prof)
    (conferenceKeysToAttend prof).

Definition set_teeShirtSize (prof : Profile) (v : string) : Profile :=
  mkProfile (userId prof) (displayName prof) (mainEmail prof) v
    (conferenceKeysToAttend prof).

Definition set_conferenceKeysToAttend (prof : Profile) (v : list ConfKey)
    : Profile :=
  mkProfile (userId prof) (displayName prof) (mainEmail prof)
    (teeShirtSize prof) v.

(** The two rounds of [for field in ('displayName', 'teeShirtSize')]. A
    member of the enumeration is always true. *)
Definition process_fields (save_request : ProfileMiniForm) (prof : Profile)
    : result Profile :=
  prof ← match pm_displayName save_request with
         | Some val =>
             if truthy (Some val)
             then set_displayName prof <$> str_of_unicode val
             else inr prof
         | None => inr prof
         end;
  match pm_teeShirtSize save_request with
  | Some val => inr (set_teeShirtSize prof (str_of_size val))
  | None => inr prof
  end.

Definition _do_profile (user : option User)
    (save_request : option ProfileMiniForm) : M ProfileForm :=
  '(key, prof) ← _get_profile_from_user user;
  prof ← match save_request with
         | Some save_request =>
             prof ← lift (process_fields save_request prof);
             put_profile key prof;;
             mret prof
         | None => mret prof
         end;
  lift (_copy_profile_to_form prof).

Definition _get_profile (user : option User) : M ProfileForm :=
  _do_profile user None.

Definition _save_profile (user : option User) (request : ProfileMiniForm)
    : M ProfileForm :=
  _do_profile user (Some request).

(** ** Conference lifecycle *)

Definition MissingRequiredField : Exc :=
  BadRequestException "Conference 'name' field required".

(** What [data['startDate']] and [data['endDate']] hold after the date
    conversion: nothing, the string that was left as it was, or a date. *)
Inductive DateSlot : Type :=
  | SlotNone
  | SlotStr (s : string)
  | SlotDate (d : date).

(** [if data[k]: data[k] = datetime.strptime(data[k][:10], "%Y-%m-%d").date()] *)
Definition convert_date (v : option string) : result DateSlot :=
  match v with
  | None => inr SlotNone
  | Some s =>
      if truthy (Some s) then SlotDate <$> strptime_Ymd (slice_to 10 s)
      else inr (SlotStr s)
  end.

(** A date property of the entity accepts a date or nothing. *)
Definition date_property (v : DateSlot) : result (option date) :=
  match v with
  | SlotNone => inr None
  | SlotDate d => inr (Some d)
  | SlotStr _ => inl (BadValueError "Expected date")
  end.

Definition month_of_slot (v : DateSlot) : Z :=
  match v with
  | SlotDate d => d_month d
  | _ => 0
  end.

Definition _create_conference_object (user : option User)
    (request : ConferenceForm) : M ConferenceForm :=
  match user with
  | None => raise Unauthenticated
  | Some user =>
      let user_id := get_user_id user in
      if negb (truthy (cf_name request)) then raise MissingRequiredField
      else
        (* defaults for those missing *)
        let data_city := default DEFAULT_city (cf_city request) in
        let data_maxAttendees :=
          default DEFAULT_maxAttendees (cf_maxAttendees request) in
        let data_seatsAvailable :=
          default DEFAULT_seatsAvailable (cf_seatsAvailable request) in
        let data_topics :=
          match cf_topics request with
          | [] => DEFAULT_topics
          | t => t
          end in
        (* dates; month from the start date *)
        data_startDate ← lift (convert_date (cf_startDate request));
        let data_month := month_of_slot data_startDate in
        data_endDate ← lift (convert_date (cf_endDate request));
        (* seatsAvailable is maxAttendees on creation *)
        let data_seatsAvailable :=
          if 0 <? data_maxAttendees then data_maxAttendees
          else data_seatsAvailable in
        let p_key := user_id in
        c_id ← allocate_id;
        let c_key := (p_key, c_id) in
        let request :=
          mkConferenceForm (cf_name request) (cf_description request)
            (Some user_id) data_topics (Some data_city)
            (cf_startDate request) (cf_month request)
            (Some data_maxAttendees) (Some data_seatsAvailable)
            (cf_endDate request) (cf_websafeKey request)
            (cf_organizerDisplayName request) in
        start ← lift (date_property data_startDate);
        end_ ← lift (date_property data_endDate);
        put_conference c_key
          (mkConference (default "" (cf_name request))
             (cf_description request) user_id data_topics data_city
             start data_month end_ data_maxAttendees data_seatsAvailable);;
        taskqueue_add (mkTask (email user) request);;
        mret request
  end.

(** [_getUserId] is bound nowhere in the module, which imports
    [get_user_id] from utils: evaluating the name raises [NameError]. *)
Definition _getUserId : M string := raise (NameError "_getUserId").

Definition ConferenceNotFound : Exc :=
  NotFoundException "No conference found with key: ".

Definition NotOwner : Exc :=
  ForbiddenException "Only the owner can update the conference.".

(** One round of the copy loop of [_update_conference_object] for a date
    field: the string is parsed whole. *)
Definition patch_date (v : option string) (old : option date)
    : result (option date) :=
  match v with
  | None => inr old
  | Some s => Some <$> strptime_Ymd s
  end.

(** The copy loop, the fields taken in the order the message declares
    them. Only the fields that are properties of the entity are kept. *)
Definition patch_conference (request : ConferenceForm) (conf : Conference)
    : result Conference :=
  let name' := default (name conf) (cf_name request) in
  let description' :=
    match cf_description request with
    | Some s => Some s
    | None => description conf
    end in
  let organizer' :=
    default (organizerUserId conf) (cf_organizerUserId request) in
  let topics' :=
    match cf_topics request with
    | [] => topics conf
    | t => t
    end in
  let city' := default (city conf) (cf_city request) in
  start' ← patch_date (cf_startDate request) (startDate conf);
  let month' :=
    match cf_startDate request, start' with
    | Some _, Some d => d_month d
    | _, _ => month conf
    end in
  let month' := default month' (cf_month request) in
  let maxAttendees' := default (maxAttendees conf) (cf_maxAttendees request) in
  let seatsAvailable' :=
    default (seatsAvailable conf) (cf_seatsAvailable request) in
  end' ← patch_date (cf_endDate request) (endDate conf);
  inr (mkConference name' description' organizer' topics' city' start'
         month' end' maxAttendees' seatsAvailable').

(** The body of [_update_conference_object], with the way the caller's id
    is obtained left open. *)
Definition update_conference_body (resolve_user_id : M string)
    (user : option User) (websafeConferenceKey : ConfKey)
    (request : ConferenceForm) : M ConferenceForm :=
  match user with
  | None => raise Unauthenticated
  | Some user =>
      user_id ← resolve_user_id;
      conf ← get_conference websafeConferenceKey;
      match conf with
      | None => raise ConferenceNotFound
      | Some conf =>
          if negb (String.eqb user_id (organizerUserId conf))
          then raise NotOwner
          else
            conf ← lift (patch_conference request conf);
            put_conference websafeConferenceKey conf;;
            prof ← get_profile user_id;
            match prof with
            | None => raise (AttributeError "displayName")
            | Some prof =>
                mret (_copy_conference_to_form websafeConferenceKey conf
                        (displayName prof))
            end
      end
  end.

Definition _update_conference_object (user : option User)
    (websafeConferenceKey : ConfKey) (request : ConferenceForm)
    : M ConferenceForm :=
  transactional
    (update_conference_body _getUserId user websafeConferenceKey request).

(** ** Registration *)

Definition AlreadyRegistered : Exc :=
  ConflictException "You have already registered for this conference".

Definition NoSeatsAvailable : Exc :=
  ConflictException "There are no seats available.".

(** [list.remove]: the first occurrence goes. *)
Fixpoint list_remove (x : ConfKey) (l : list ConfKey) : list ConfKey :=
  match l with
  | [] => []
  | y :: l' => if decide (x = y) then l' else y :: list_remove x l'
  end.

Definition set_seatsAvailable (conf : Conference) (v : Z) : Conference :=
  mkConference (name conf) (description conf) (organizerUserId conf)
    (topics conf) (city conf) (startDate conf) (month conf) (endDate conf)
    (maxAttendees conf) v.

Definition conference_registration_body (user : option User)
    (wsck : ConfKey) (reg : bool) : M bool :=
  '(p_key, prof) ← _get_profile_from_user user;
  conf ← get_conference wsck;
  match conf with
  | None => raise ConferenceNotFound
  | Some conf =>
      '(retval, prof, conf) ←
        (if reg then
           if bool_decide (wsck ∈ conferenceKeysToAttend prof)
           then raise AlreadyRegistered
           else if seatsAvailable conf <=? 0
           then raise NoSeatsAvailable
           else
             mret (true,
                   set_conferenceKeysToAttend prof
                     (conferenceKeysToAttend prof ++ [wsck]),
                   set_seatsAvailable conf (seatsAvailable conf - 1))
         else
           if bool_decide (wsck ∈ conferenceKeysToAttend prof)
           then
             mret (true,
                   set_conferenceKeysToAttend prof
                     (list_remove wsck (conferenceKeysToAttend prof)),
                   set_seatsAvailable conf (seatsAvailable conf + 1))
           else mret (false, prof, conf));
      put_profile p_key prof;;
      put_conference wsck conf;;
      mret retval
  end.

Definition _conference_registration (user : option User) (wsck : ConfKey)
    (reg : bool) : M bool :=
  transactional (conference_registration_body user wsck reg).

Definition register_for_conference (user : option User) (wsck : ConfKey)
    : M bool :=
  _conference_registration user wsck true.

Definition unregister_from_conference (user : option User) (wsck : ConfKey)
    : M bool :=
  _conference_registration user wsck false.

(** The two endpoints that only delegate. *)
Definition update_conference := _update_conference_object.
Definition _create_conference := _create_conference_object.

(** ** Calls and reachable stores *)

Inductive Op : Type :=
  | CreateConference (user : option User) (request : ConferenceForm)
  | UpdateConference (user : option User) (wsck : ConfKey)
      (request : ConferenceForm)
  | RegisterForConference (user : option User) (wsck : ConfKey)
  | UnregisterFromConference (user : option User) (wsck : ConfKey).

Inductive Reply : Type :=
  | ConferenceReply (form : ConferenceForm)
  | BooleanMessage (data : bool).

Definition reply {A} (f : A → Reply) (m : M A) : M Reply :=
  x ← m; mret (f x).

Definition call (op : Op) : M Reply :=
  match op with
  | CreateConference user request =>
      reply ConferenceReply (_create_conference_object user request)
  | UpdateConference user wsck request =>
      reply ConferenceReply (_update_conference_object user wsck request)
  | RegisterForConference user wsck =>
      reply BooleanMessage (register_for_conference user wsck)
  | UnregisterFromConference user wsck =>
      reply BooleanMessage (unregister_from_conference user wsck)
  end.

(** The store after a sequence of calls, whatever each call answered. *)
Definition run_calls (ops : list Op) (st : Store) : Store :=
  foldl (λ st op, (call op st).2) st ops.

(** ** The properties of the specification *)

(** The number of Profiles whose [conferenceKeysToAttend] contains [k]. *)
Definition attendees (st : Store) (k : ConfKey) : nat :=
  size (filter (λ kp : string * Profile, k ∈ conferenceKeysToAttend kp.2)
          (profiles st)).

(** The seat invariant of the specification, for every stored Conference. *)
Definition seat_invariant (st : Store) : Prop :=
  ∀ k c, conferences st !! k = Some c →
    seatsAvailable c = maxAttendees c - Z.of_nat (attendees st k)
    ∧ 0 ≤ seatsAvailable c ≤ maxAttendees c.

(** A creation request whose seat count follows from its capacity: either
    [maxAttendees] is positive, or it is left at 0 together with
    [seatsAvailable]. *)
Definition seats_follow_capacity (request : ConferenceForm) : bool :=
  (0 <? default 0 (cf_maxAttendees request))
  || ((default 0 (cf_maxAttendees request) =? 0)
      && (default 0 (cf_seatsAvailable request) =? 0)).

(** An update request that patches neither of the two seat fields. *)
Definition leaves_seats_alone (request : ConferenceForm) : bool :=
  bool_decide (cf_maxAttendees request = None)
  && bool_decide (cf_seatsAvailable request = None).

Definition seat_safe (op : Op) : bool :=
  match op with
  | CreateConference _ request => seats_follow_capacity request
  | UpdateConference _ _ request => leaves_seats_alone request
  | RegisterForConference _ _ | UnregisterFromConference _ _ => true
  end.

(** By how much a call with answer [r] is to change the seats of [k]. *)
Definition seat_change (op : Op) (r : result Reply) (k : ConfKey) : Z :=
  match op, r with
  | RegisterForConference _ k', inr (BooleanMessage true) =>
      if decide (k = k') then -1 else 0
  | UnregisterFromConference _ k', inr (BooleanMessage true) =>
      if decide (k = k') then 1 else 0
  | _, _ => 0
  end.

(** The caller's Profile as the handlers see it: the stored one, or the one
    made on first access. *)
Definition caller_profile (user : User) (st : Store) : Profile :=
  default
    (mkProfile (get_user_id user) (nickname user) (email user)
       (str_of_size NOT_SPECIFIED) [])
    (profiles st !! get_user_id user).

(** The store once the caller's Profile is in it. *)
Definition with_caller_profile (user : User) (st : Store) : Store :=
  mkStore (<[get_user_id user := caller_profile user st]> (profiles st))
    (conferences st) (next_id st) (tasks st).

(** A clause with an operator other than equality. *)
Definition is_inequality (c : ConferenceQueryForm) : bool :=
  negb (String.eqb (operator c) "EQ").

(** The inequality field as the specification words it: the property the
    first inequality clause, in input order, is on. *)
Definition spec_inequality_field (fs : list ConferenceQueryForm)
    : option string :=
  c ← head (List.filter is_inequality fs); FIELDS !! field c.

(** The sort order the specification asks for. *)
Definition spec_sort_order (fs : list ConferenceQueryForm) : list string :=
  match spec_inequality_field fs with
  | Some f => [f; "name"]
  | None => ["name"]
  end.

(** Two clauses with inequality operators on two distinct fields. *)
Definition two_inequality_fields (fs : list ConferenceQueryForm) : Prop :=
  ∃ c1 c2, c1 ∈ fs ∧ c2 ∈ fs
    ∧ is_inequality c1 = true ∧ is_inequality c2 = true
    ∧ field c1 ≠ field c2.

Definition whitelisted (c : ConferenceQueryForm) : Prop :=
  is_Some (FIELDS !! field c) ∧ is_Some (OPERATORS !! operator c).

(** A clause on one of the two numeric fields. *)
Definition on_numeric_field (c : ConferenceQueryForm) : bool :=
  bool_decide (field c ∈ ["MONTH"; "MAX_ATTENDEES"]).

(** The filter the specification expects for a clause: the mapped names
    and the value, an integer on a numeric field. *)
Definition coerced (c : ConferenceQueryForm) (node : FilterNode) : Prop :=
  FIELDS !! field c = Some (fn_name node)
  ∧ OPERATORS !! operator c = Some (fn_opsymbol node)
  ∧ if on_numeric_field c
    then ∃ z, py_int (value c) = Some z ∧ fn_value node = VInt z
    else fn_value node = VStr (value c).

(** ** Auxiliary notions of the proofs *)

Ltac table_cases H :=
  repeat (apply elem_of_cons in H as [H | H]);
  [ inversion H; subst; clear H .. | apply elem_of_nil in H; destruct H ].

(** What makes the loop of [_format_filters] raise, given the inequality
    field [ineq] found so far. *)
Definition clash (ineq : option string) (fs : list ConferenceQueryForm)
    : Prop :=
  ∃ c, c ∈ fs ∧ is_inequality c = true
    ∧ ((∃ f, ineq = Some f ∧ FIELDS !! field c ≠ Some f)
       ∨ ∃ c', c' ∈ fs ∧ is_inequality c' = true ∧ field c ≠ field c').

(** A formatted filter is its clause with the two names mapped. *)
Definition formatted_as (c : ConferenceQueryForm) (f : Filtr) : Prop :=
  FIELDS !! field c = Some (f_field f)
  ∧ OPERATORS !! operator c = Some (f_operator f)
  ∧ f_value f = VStr (value c).

(** A clause on a numeric field whose value [int] refuses. *)
Definition uncoercible (c : ConferenceQueryForm) : Prop :=
  on_numeric_field c = true ∧ py_int (value c) = None.

(** Whether a Profile slot counts for [k]. *)
Definition has_key (k : ConfKey) (o : option Profile) : nat :=
  match o with
  | Some p => if decide (k ∈ conferenceKeysToAttend p) then 1 else 0
  | None => 0
  end.

(** The store after [put_profile u p]. *)
Definition put_profile_store (u : string) (p : Profile) (st : Store)
    : Store :=
  mkStore (<[u := p]> (profiles st)) (conferences st) (next_id st)
    (tasks st).

(** The seats of a new Conference: its capacity when that is positive,
    else what the request or the default says. *)
Definition created_seats (request : ConferenceForm) : Z :=
  if 0 <? default DEFAULT_maxAttendees (cf_maxAttendees request)
  then default DEFAULT_maxAttendees (cf_maxAttendees request)
  else default DEFAULT_seatsAvailable (cf_seatsAvailable request).

(** The topics of a new Conference. *)
Definition created_topics (request : ConferenceForm) : list string :=
  match cf_topics request with
  | [] => DEFAULT_topics
  | t => t
  end.

(** The form [_create_conference_object] hands back. *)
Definition created_form (user : User) (request : ConferenceForm)
    : ConferenceForm :=
  mkConferenceForm (cf_name request) (cf_description request)
    (Some (get_user_id user)) (created_topics request)
    (Some (default DEFAULT_city (cf_city request)))
    (cf_startDate request) (cf_month request)
    (Some (default DEFAULT_maxAttendees (cf_maxAttendees request)))
    (Some (created_seats request))
    (cf_endDate request) (cf_websafeKey request)
    (cf_organizerDisplayName request).

(** The entity it stores, for the two dates [start] and [end_]. *)
Definition created_entity (user : User) (request : ConferenceForm)
    (start end_ : option date) : Conference :=
  mkConference (default "" (cf_name request)) (cf_description request)
    (get_user_id user) (created_topics request)
    (default DEFAULT_city (cf_city request))
    start (from_option d_month 0 start) end_
    (default DEFAULT_maxAttendees (cf_maxAttendees request))
    (created_seats request).

(** The store after an id was allocated and the entity was refused. *)
Definition id_taken (st : Store) : Store :=
  mkStore (profiles st) (conferences st) (Pos.succ (next_id st)) (tasks st).

(** The store after a successful [_create_conference_object]. *)
Definition conference_created (user : User) (request : ConferenceForm)
    (start end_ : option date) (st : Store) : Store :=
  mkStore (profiles st)
    (<[(get_user_id user, next_id st) :=
         created_entity user request start end_]> (conferences st))
    (Pos.succ (next_id st))
    (tasks st ++ [mkTask (email user) (created_form user request)]).

(** A date field that is absent or whose first ten characters parse. *)
Definition date_field_ok (v : option string) : Prop :=
  v = None ∨ ∃ s, v = Some s ∧ is_Some (parse_Ymd (slice_to 10 s)).

(** What the handlers keep true of a store: the seat invariant, Profiles
    whose key lists have no duplicates and name stored Conferences only,
    and Conference ids below the next id to allocate. *)
Definition store_inv (st : Store) : Prop :=
  seat_invariant st
  ∧ (∀ u p, profiles st !! u = Some p →
       NoDup (conferenceKeysToAttend p)
       ∧ ∀ k, k ∈ conferenceKeysToAttend p → is_Some (conferences st !! k))
  ∧ (∀ k, is_Some (conferences st !! k) → (k.2 < next_id st)%positive).

(** How far a handler moved the seats of the stored Conferences. *)
Definition seats_moved (st st' : Store) (delta : ConfKey → Z) : Prop :=
  ∀ k c, conferences st !! k = Some c →
    ∃ c', conferences st' !! k = Some c'
          ∧ maxAttendees c' = maxAttendees c
          ∧ seatsAvailable c' = seatsAvailable c + delta k.

(** [seat_change] on the answer of [_conference_registration]. *)
Definition registration_delta (wsck : ConfKey) (reg : bool)
    (r : result bool) (k : ConfKey) : Z :=
  match r with
  | inr true => if decide (k = wsck) then (if reg then -1 else 1) else 0
  | _ => 0
  end.

(** No seat moves. *)
Definition no_delta (k : ConfKey) : Z := 0.

(** ** Example data *)

Definition alice : User := mkUser "alice" "Alice" "alice@example.com".
Definition bob : User := mkUser "bob" "Bob" "bob@example.com".

Definition blank_form : ConferenceForm :=
  mkConferenceForm None None None [] None None None None None None None None.

(** A conference for ten, with a start date as a client sends it. *)
Definition pycon : ConferenceForm :=
  mkConferenceForm (Some "PyCon") None None [] None
    (Some "2015-06-01T09:00:00") None (Some 10) None None None None.

(** A request that sets seatsAvailable and leaves maxAttendees out. *)
Definition seats_only : ConferenceForm :=
  mkConferenceForm (Some "PyCon") None None [] None None None None (Some 5)
    None None None.

Definition pycon_key : ConfKey := ("alice", 1%positive).

Definition pycon_entity (seats : Z) : Conference :=
  mkConference "PyCon" None "alice" ["Default"; "Topic"] "Default City"
    (Some (mkDate 2015 6 1)) 6 None 10 seats.

Definition pycon_store : Store :=
  run_calls [CreateConference (Some alice) pycon] empty_store.

Definition pycon_store_bob : Store :=
  run_calls [RegisterForConference (Some bob) pycon_key] pycon_store.

(** Accepted by the filter compiler, with a capacity that is no number. *)
Definition month_filters : list ConferenceQueryForm :=
  [mkQueryForm "MONTH" "EQ" " 6"; mkQueryForm "CITY" "NE" "x";
   mkQueryForm "MAX_ATTENDEES" "EQ" "many"].

(** Inequalities on two fields, around an equality. *)
Definition clashing_filters : list ConferenceQueryForm :=
  [mkQueryForm "CITY" "NE" "London"; mkQueryForm "CITY" "EQ" "Paris";
   mkQueryForm "MONTH" "GT" "6"].

(** The scenario of the specification: London, more than ten attendees. *)
Definition london_filters : list ConferenceQueryForm :=
  [mkQueryForm "CITY" "EQ" "London"; mkQueryForm "MAX_ATTENDEES" "GT" "10"].

Definition london_query : Query :=
  mkQuery ["maxAttendees"; "name"]
    [mkFilterNode "city" "=" (VStr "London");
     mkFilterNode "maxAttendees" ">" (VInt 10)].

Definition demo_calls : list Op :=
  [CreateConference (Some alice) pycon;
   RegisterForConference (Some bob) pycon_key;
   UpdateConference (Some alice) pycon_key blank_form;
   RegisterForConference (Some alice) pycon_key;
   UnregisterFromConference (Some bob) pycon_key].

(** ** Further endpoints *)

(** The endpoint [get_conference] (getConference); the name is taken by
    the datastore read above. *)
Definition getConference (websafeConferenceKey : ConfKey)
    : M ConferenceForm :=
  conf ← get_conference websafeConferenceKey;
  match conf with
  | None => raise ConferenceNotFound
  | Some conf =>
      (* conf.key.parent().get() *)
      prof ← get_profile websafeConferenceKey.1;
      match prof with
      | None => raise (AttributeError "displayName")
      | Some prof =>
          mret (_copy_conference_to_form websafeConferenceKey conf
                  (displayName prof))
      end
  end.

(** [ndb.get_multi] on Conference keys and on Profile keys: an entity or
    [None] for each key, in the order of the keys. *)
Definition get_multi_conferences (keys : list ConfKey)
    : M (list (option Conference)) :=
  λ st, (inr ((λ k, conferences st !! k) <$> keys), st).

Definition get_multi_profiles (keys : list string)
    : M (list (option Profile)) :=
  λ st, (inr ((λ k, profiles st !! k) <$> keys), st).

(** A list comprehension whose element expression may raise. *)
Fixpoint comprehension {A B} (f : A → result B) (l : list A)
    : result (list B) :=
  match l with
  | [] => inr []
  | x :: l' => y ← f x; ys ← comprehension f l'; mret (y :: ys)
  end.

(** [conf.organizerUserId], of an entity or of [None]. *)
Definition organizer_of (conf : option Conference) : result string :=
  match conf with
  | Some conf => inr (organizerUserId conf)
  | None => inl (AttributeError "organizerUserId")
  end.

(** One round of [names[profile.key.id()] = profile.displayName]. *)
Definition name_entry (key_profile : string * option Profile)
    : result (string * string) :=
  match key_profile.2 with
  | Some profile => inr (key_profile.1, displayName profile)
  | None => inl (AttributeError "key")
  end.

Definition get_conferences_to_attend (user : option User)
    : M (list ConferenceForm) :=
  '(_, profile) ← _get_profile_from_user user;
  let ndb_keys := conferenceKeysToAttend profile in
  conferences ← get_multi_conferences ndb_keys;
  organisers ← lift (comprehension organizer_of conferences);
  profiles ← get_multi_profiles organisers;
  names ← lift (comprehension name_entry (zip organisers profiles));
  lift (comprehension
          (λ kc : ConfKey * option Conference,
             match kc.2 with
             | Some conf => inr (_copy_conference_to_form kc.1 conf "")
             | None => inl (AttributeError "name")
             end)
          (zip ndb_keys conferences)).

(** The Conference entities in the order the datastore yields them,
    which the handlers below leave open: [scan] is that order. *)
Definition ancestor_query
    (scan : gmap ConfKey Conference → list (ConfKey * Conference))
    (p_key : string) : M (list (ConfKey * Conference)) :=
  λ st, (inr (filter (λ kc : ConfKey * Conference, kc.1.1 = p_key)
                (scan (conferences st))), st).

(** The query is built first and iterated last, when the forms are
    made. *)
Definition get_conferences_created
    (scan : gmap ConfKey Conference → list (ConfKey * Conference))
    (user : option User) : M (list ConferenceForm) :=
  match user with
  | None => raise Unauthenticated
  | Some user =>
      let p_key := get_user_id user in
      prof ← get_profile p_key;
      match prof with
      | None => raise (AttributeError "displayName")
      | Some prof =>
          conferences ← ancestor_query scan p_key;
          mret ((λ kc : ConfKey * Conference,
                   _copy_conference_to_form kc.1 kc.2 (displayName prof))
                <$> conferences)
      end
  end.

(** ** Announcements *)

Definition MEMCACHE_ANNOUNCEMENTS_KEY : string := "RECENT_ANNOUNCEMENTS".

Definition announcement_head : string :=
  "Last chance to attend! The following conferences "
  +:+ "are nearly sold out:".

(** The Conferences with a seat left and at most five. *)
Definition nearly_sold_out (kc : ConfKey * Conference) : Prop :=
  seatsAvailable kc.2 ≤ 5 ∧ 0 < seatsAvailable kc.2.

#[global] Instance nearly_sold_out_dec kc : Decision (nearly_sold_out kc) :=
  decide (seatsAvailable kc.2 ≤ 5 ∧ 0 < seatsAvailable kc.2).

(** [_cache_announcement]: the announcement and the cache after it; the
    cache is a map that forgets nothing by itself. *)
Definition _cache_announcement
    (scan : gmap ConfKey Conference → list (ConfKey * Conference))
    (st : Store) (memcache : gmap string string)
    : string * gmap string string :=
  let confs := filter nearly_sold_out (scan (conferences st)) in
  match confs with
  | _ :: _ =>
      let announcement :=
        announcement_head +:+ " "
        +:+ String.concat ", " ((λ kc, name kc.2) <$> confs) in
      (announcement, <[MEMCACHE_ANNOUNCEMENTS_KEY := announcement]> memcache)
  | [] => ("", delete MEMCACHE_ANNOUNCEMENTS_KEY memcache)
  end.

(** [memcache.get(MEMCACHE_ANNOUNCEMENTS_KEY) or ""]. *)
Definition get_announcement (memcache : gmap string string) : string :=
  let announcement := memcache !! MEMCACHE_ANNOUNCEMENTS_KEY in
  if truthy announcement then default "" announcement else "".

(** ** All the calls that write *)

Inductive Api : Type :=
  | Call (op : Op)
  | GetProfile (user : option User)
  | SaveProfile (user : option User) (request : ProfileMiniForm)
  | GetConference (wsck : ConfKey)
  | GetConferencesToAttend (user : option User).

(** The store a call leaves, whatever it answers. *)
Definition api_store (a : Api) (st : Store) : Store :=
  match a with
  | Call op => (call op st).2
  | GetProfile user => (_get_profile user st).2
  | SaveProfile user request => (_save_profile user request st).2
  | GetConference wsck => (getConference wsck st).2
  | GetConferencesToAttend user => (get_conferences_to_attend user st).2
  end.

Definition run_api (calls : list Api) (st : Store) : Store :=
  foldl (λ st a, api_store a st) st calls.

Definition api_seat_safe (a : Api) : bool :=
  match a with
  | Call op => seat_safe op
  | _ => true
  end.

(** What every call keeps true of a store: key lists without duplicates
    that name stored Conferences only, Conference ids below the next id
    to allocate, and each Profile stored under its own userId. *)
Definition store_wf (st : Store) : Prop :=
  (∀ u p, profiles st !! u = Some p →
     userId p = u
     ∧ NoDup (conferenceKeysToAttend p)
     ∧ ∀ k, k ∈ conferenceKeysToAttend p → is_Some (conferences st !! k))
  ∧ (∀ k, is_Some (conferences st !! k) → (k.2 < next_id st)%positive).

(** The answers of the callers of [us] registering one after the other. *)
Fixpoint register_all (us : list User) (wsck : ConfKey) (st : Store)
    : list (result bool) * Store :=
  match us with
  | [] => ([], st)
  | u :: us' =>
      let '(r, st1) := register_for_conference (Some u) wsck st in
      let '(rs, st2) := register_all us' wsck st1 in
      (r :: rs, st2)
  end.

(** A date of the calendar with a four-digit year. *)
Definition valid_date (d : date) : Prop :=
  1 ≤ d_year d ≤ 9999 ∧ 1 ≤ d_month d ≤ 12
  ∧ 1 ≤ d_day d ≤ days_in_month (d_year d) (d_month d).

(** A string [str] encodes. *)
Definition ascii_only (s : string) : bool :=
  forallb (λ c, (nat_of_ascii c <? 128)%nat) (list_ascii_of_string s).

(** alice creates a Conference without ever asking for her Profile, and
    bob registers for it. *)
Definition attend_calls : list Api :=
  [Call (CreateConference (Some alice) pycon);
   Call (RegisterForConference (Some bob) pycon_key)].

(** A Profile whose tee shirt size is the name of a size, and a store of
    such Profiles. *)
Definition size_known (p : Profile) : Prop :=
  is_Some (size_of_name (teeShirtSize p)).

Definition sizes_valid (st : Store) : Prop :=
  ∀ u p, profiles st !! u = Some p → size_known p.

(** * Proofs *)

(** ** The two tables *)

Lemma FIELDS_elem k f :
  FIELDS !! k = Some f →
  (k, f) ∈ [ ("CITY", "city"); ("TOPIC", "topics"); ("MONTH", "month");
             ("MAX_ATTENDEES", "maxAttendees") ].
Proof. apply elem_of_list_to_map_2. Qed.

Lemma OPERATORS_elem k s :
  OPERATORS !! k = Some s →
  (k, s) ∈ [ ("EQ", "="); ("GT", ">"); ("GTEQ", ">="); ("LT", "<");
             ("LTEQ", "<="); ("NE", "!=") ].
Proof. apply elem_of_list_to_map_2. Qed.

Lemma FIELDS_truthy k f : FIELDS !! k = Some f → truthy (Some f) = true.
Proof. intros H%FIELDS_elem. table_cases H; reflexivity. Qed.

Lemma FIELDS_inj k1 k2 f :
  FIELDS !! k1 = Some f → FIELDS !! k2 = Some f → k1 = k2.
Proof.
  intros H1%FIELDS_elem H2%FIELDS_elem.
  table_cases H1; table_cases H2; reflexivity.
Qed.

Lemma FIELDS_numeric k f :
  FIELDS !! k = Some f →
  numeric_field f = bool_decide (k ∈ ["MONTH"; "MAX_ATTENDEES"]).
Proof. intros H%FIELDS_elem. table_cases H; reflexivity. Qed.

Lemma OPERATORS_equality k s :
  OPERATORS !! k = Some s → String.eqb s "=" = String.eqb k "EQ".
Proof. intros H%OPERATORS_elem. table_cases H; reflexivity. Qed.

(** ** The filter compiler *)

Lemma clash_None fs : clash None fs ↔ two_inequality_fields fs.
Proof.
  split.
  - intros (c & Hc & Hi & [(f & Hf & _) | (c' & Hc' & Hi' & Hne)]);
      [discriminate |].
    exists c, c'. auto.
  - intros (c & c' & Hc & Hc' & Hi & Hi' & Hne).
    exists c. split_and!; auto. right. exists c'. auto.
Qed.

Lemma clash_skip ineq c fs :
  is_inequality c = false → clash ineq (c :: fs) ↔ clash ineq fs.
Proof.
  intros Heq. split.
  - intros (c1 & Hc1 & Hi1 & Hcase).
    apply elem_of_cons in Hc1 as [-> | Hc1]; [congruence |].
    exists c1. split_and!; auto.
    destruct Hcase as [? | (c2 & Hc2 & Hi2 & Hne)]; [by left |].
    apply elem_of_cons in Hc2 as [-> | Hc2]; [congruence |].
    right. exists c2. auto.
  - intros (c1 & Hc1 & Hi1 & Hcase).
    exists c1. split_and!; [by apply list_elem_of_further | done |].
    destruct Hcase as [? | (c2 & Hc2 & Hi2 & Hne)]; [by left |].
    right. exists c2. split_and!; auto. by apply list_elem_of_further.
Qed.

Lemma clash_fix ineq c fld fs :
  Forall whitelisted fs →
  FIELDS !! field c = Some fld → is_inequality c = true →
  ineq = None ∨ ineq = Some fld →
  clash ineq (c :: fs) ↔ clash (Some fld) fs.
Proof.
  intros Hw Hfld Hi Hineq.
  assert (Hother : ∀ c', c' ∈ fs → field c' ≠ field c →
            FIELDS !! field c' ≠ Some fld).
  { intros c' Hc' Hne Hf. apply Hne. eapply FIELDS_inj; eauto. }
  split.
  - intros (c1 & Hc1 & Hi1 & Hcase).
    apply elem_of_cons in Hc1 as [-> | Hc1].
    + destruct Hcase as [(f & Hf & Hne) | (c2 & Hc2 & Hi2 & Hne)].
      { destruct Hineq; congruence. }
      apply elem_of_cons in Hc2 as [-> | Hc2]; [done |].
      exists c2. split_and!; auto. left. exists fld. split; [done |].
      apply Hother; auto.
    + exists c1. split_and!; auto.
      destruct Hcase as [(f & Hf & Hne) | (c2 & Hc2 & Hi2 & Hne)].
      { left. exists fld. destruct Hineq; [congruence |].
        split; [done | congruence]. }
      apply elem_of_cons in Hc2 as [-> | Hc2].
      * left. exists fld. split; [done |]. apply Hother; auto.
      * right. exists c2. auto.
  - intros (c1 & Hc1 & Hi1 & Hcase).
    destruct Hcase as [(f & Hf & Hne) | (c2 & Hc2 & Hi2 & Hne)].
    + exists c1. split_and!; [by apply list_elem_of_further | done |].
      right. exists c. split_and!; [apply list_elem_of_here | done |].
      intros Heq. apply Hne. rewrite Heq. congruence.
    + exists c1. split_and!; [by apply list_elem_of_further | done |].
      right. exists c2. split_and!; auto. by apply list_elem_of_further.
Qed.

Lemma is_inequality_operator c op :
  OPERATORS !! operator c = Some op →
  negb (String.eqb op "=") = is_inequality c.
Proof. intros H. unfold is_inequality. by rewrite (OPERATORS_equality _ _ H). Qed.

(** The loop raises exactly on a clash, and then with the one message. *)
Lemma format_filters_loop_spec fs :
  ∀ ineq acc,
    Forall whitelisted fs →
    (∀ f, ineq = Some f → truthy (Some f) = true) →
    (clash ineq fs →
       format_filters_loop fs ineq acc = inl MultipleInequalityFields)
    ∧ (∀ e, format_filters_loop fs ineq acc = inl e →
         e = MultipleInequalityFields ∧ clash ineq fs).
Proof.
  induction fs as [| c fs IH]; intros ineq acc Hw Htr.
  - split.
    + intros (c & Hc & _). by apply elem_of_nil in Hc.
    + simpl. discriminate.
  - apply Forall_cons in Hw as [[[fld Hfld] [op Hop]] Hw].
    simpl. rewrite Hfld, Hop.
    rewrite (is_inequality_operator _ _ Hop).
    destruct (is_inequality c) eqn:Hi.
    + destruct (truthy ineq && negb (bool_decide (ineq = Some fld)))
        eqn:Hguard.
      * apply andb_true_iff in Hguard as [Ht Hne].
        apply negb_true_iff, bool_decide_eq_false in Hne.
        assert (Hclash : clash ineq (c :: fs)).
        { exists c. split_and!; [apply list_elem_of_here | done |].
          left. destruct ineq as [f |]; [| discriminate].
          exists f. split; [done | congruence]. }
        split; [done |]. intros e [= <-]. done.
      * assert (Hineq : ineq = None ∨ ineq = Some fld).
        { destruct ineq as [f |]; [| by left]. right.
          rewrite (Htr f eq_refl) in Hguard. simpl in Hguard.
          by apply negb_false_iff, bool_decide_eq_true in Hguard. }
        destruct (IH (Some fld) ((acc ++ [mkFiltr fld op (VStr (value c))])%list)
                    Hw) as [IH1 IH2].
        { intros f [= <-]. eapply FIELDS_truthy; eauto. }
        pose proof (clash_fix ineq c fld fs Hw Hfld Hi Hineq) as Hfix.
        split; [intros ?%Hfix; auto |].
        intros e He. apply IH2 in He as [-> ?]. split; [done | by apply Hfix].
    + destruct (IH ineq (acc ++ [mkFiltr fld op (VStr (value c))])%list Hw Htr)
        as [IH1 IH2].
      pose proof (clash_skip ineq c fs Hi) as Hskip.
      split; [intros ?%Hskip; auto |].
      intros e He. apply IH2 in He as [-> ?]. split; [done | by apply Hskip].
Qed.

Lemma spec_inequality_field_skip c fs :
  is_inequality c = false →
  spec_inequality_field (c :: fs) = spec_inequality_field fs.
Proof. intros H. unfold spec_inequality_field. simpl. by rewrite H. Qed.

Lemma spec_inequality_field_here c fs :
  is_inequality c = true →
  spec_inequality_field (c :: fs) = FIELDS !! field c.
Proof. intros H. unfold spec_inequality_field. simpl. by rewrite H. Qed.

(** On success the loop hands back the field of the first inequality
    clause, or the one it started from. *)
Lemma format_filters_loop_field fs :
  ∀ ineq acc ineq' fmt,
    (∀ f, ineq = Some f → truthy (Some f) = true) →
    format_filters_loop fs ineq acc = inr (ineq', fmt) →
    ineq' = or_else ineq (spec_inequality_field fs)
    ∧ (∀ f, ineq' = Some f → truthy (Some f) = true).
Proof.
  induction fs as [| c fs IH]; intros ineq acc ineq' fmt Htr Hrun.
  - simpl in Hrun. injection Hrun as <- <-. split; [| done].
    by destruct ineq.
  - simpl in Hrun.
    destruct (FIELDS !! field c) as [fld |] eqn:Hfld; [| discriminate].
    destruct (OPERATORS !! operator c) as [op |] eqn:Hop; [| discriminate].
    rewrite (is_inequality_operator _ _ Hop) in Hrun.
    destruct (is_inequality c) eqn:Hi.
    + destruct (truthy ineq && negb (bool_decide (ineq = Some fld)))
        eqn:Hguard; [discriminate |].
      apply IH in Hrun as [-> Htr'].
      2:{ intros f [= <-]. eapply FIELDS_truthy; eauto. }
      split; [| done]. simpl.
      rewrite (spec_inequality_field_here _ _ Hi), Hfld.
      destruct ineq as [f |]; [| done]. simpl.
      rewrite (Htr f eq_refl) in Hguard. simpl in Hguard.
      apply negb_false_iff, bool_decide_eq_true in Hguard. congruence.
    + apply IH in Hrun as [-> Htr']; [| done].
      by rewrite (spec_inequality_field_skip _ _ Hi).
Qed.

Lemma format_filters_loop_formatted fs :
  ∀ ineq acc ineq' fmt,
    format_filters_loop fs ineq acc = inr (ineq', fmt) →
    ∃ new, fmt = (acc ++ new)%list ∧ Forall2 formatted_as fs new.
Proof.
  induction fs as [| c fs IH]; intros ineq acc ineq' fmt Hrun.
  - simpl in Hrun. injection Hrun as <- <-. exists [].
    split; [by rewrite app_nil_r | constructor].
  - simpl in Hrun.
    destruct (FIELDS !! field c) as [fld |] eqn:Hfld; [| discriminate].
    destruct (OPERATORS !! operator c) as [op |] eqn:Hop; [| discriminate].
    assert (∃ i, format_filters_loop fs i
                   (acc ++ [mkFiltr fld op (VStr (value c))]) =
                 inr (ineq', fmt)) as [i Hi].
    { destruct (negb (String.eqb op "=")); [| eauto].
      destruct (truthy ineq && negb (bool_decide (ineq = Some fld)));
        [discriminate | eauto]. }
    apply IH in Hi as (new & -> & Hnew).
    exists (mkFiltr fld op (VStr (value c)) :: new).
    split; [by rewrite <- app_assoc |].
    constructor; [by repeat split | done].
Qed.

Lemma get_query_loop_orders fs :
  ∀ q q', get_query_loop fs q = inr q' → orders q' = orders q.
Proof.
  induction fs as [| f fs IH]; intros q q' Hrun; simpl in Hrun.
  - by injection Hrun as <-.
  - destruct (if numeric_field (f_field f) then _ else _) as [e | v];
      simpl in Hrun; [discriminate |].
    by apply IH in Hrun.
Qed.

Lemma get_query_loop_spec fs fmts :
  Forall2 formatted_as fs fmts →
  ∀ q,
    (∀ q', get_query_loop fmts q = inr q' →
       ∃ nodes, filters q' = (filters q ++ nodes)%list
                ∧ Forall2 coerced fs nodes)
    ∧ ((∃ c, c ∈ fs ∧ uncoercible c) →
         get_query_loop fmts q = inl InvalidFilterValue)
    ∧ ((∀ c, c ∈ fs → ¬ uncoercible c) →
         is_ok (get_query_loop fmts q) = true).
Proof.
  induction 1 as [| c f fs fmts (Hf & Ho & Hv) Hrest IH]; intros q.
  - split_and!.
    + simpl. intros q' [= <-]. exists []. by rewrite app_nil_r.
    + intros (c & Hc & _). by apply elem_of_nil in Hc.
    + done.
  - simpl. rewrite Hv, (FIELDS_numeric _ _ Hf).
    change (bool_decide (field c ∈ ["MONTH"; "MAX_ATTENDEES"]))
      with (on_numeric_field c).
    destruct (on_numeric_field c) eqn:Hnum.
    + unfold int. destruct (py_int (value c)) as [z |] eqn:Hz; simpl.
      * destruct (IH (filter_by q
                        (mkFilterNode (f_field f) (f_operator f) (VInt z))))
          as (IH1 & IH2 & IH3).
        split_and!.
        -- intros q' (nodes & -> & Hnodes)%IH1. simpl.
           exists (mkFilterNode (f_field f) (f_operator f) (VInt z) :: nodes).
           split; [by rewrite <- app_assoc |].
           constructor; [| done]. unfold coerced. simpl. rewrite Hnum. eauto.
        -- intros (c' & Hc' & Hbad). apply IH2.
           apply elem_of_cons in Hc' as [-> | Hc']; [| eauto].
           destruct Hbad as [_ Hbad]. congruence.
        -- intros Hall. apply IH3. intros c' Hc'. apply Hall.
           by apply list_elem_of_further.
      * split_and!; [discriminate | done |].
        intros Hall. exfalso. apply (Hall c); [apply list_elem_of_here |].
        by split.
    + simpl.
      destruct (IH (filter_by q
                      (mkFilterNode (f_field f) (f_operator f)
                         (VStr (value c)))))
        as (IH1 & IH2 & IH3).
      split_and!.
      * intros q' (nodes & -> & Hnodes)%IH1. simpl.
        exists (mkFilterNode (f_field f) (f_operator f) (VStr (value c))
                :: nodes).
        split; [by rewrite <- app_assoc |].
        constructor; [| done]. unfold coerced. simpl. by rewrite Hnum.
      * intros (c' & Hc' & Hbad). apply IH2.
        apply elem_of_cons in Hc' as [-> | Hc']; [| eauto].
        destruct Hbad as [Hbad _]. congruence.
      * intros Hall. apply IH3. intros c' Hc'. apply Hall.
        by apply list_elem_of_further.
Qed.

Lemma two_inequality_fields_filter fs :
  two_inequality_fields fs
  ↔ two_inequality_fields (List.filter is_inequality fs).
Proof.
  unfold two_inequality_fields. split.
  - intros (c1 & c2 & H1 & H2 & Hi1 & Hi2 & Hne). exists c1, c2.
    rewrite !list_elem_of_In, !filter_In, <- !list_elem_of_In. auto.
  - intros (c1 & c2 & H1 & H2 & Hi1 & Hi2 & Hne). exists c1, c2.
    rewrite !list_elem_of_In, !filter_In, <- !list_elem_of_In in H1, H2.
    tauto.
Qed.

Lemma whitelisted_filter fs :
  Forall whitelisted fs → Forall whitelisted (List.filter is_inequality fs).
Proof.
  rewrite !Forall_forall. intros H c Hc. apply H.
  rewrite list_elem_of_In, filter_In in Hc. rewrite list_elem_of_In. tauto.
Qed.

Lemma format_filters_raises fs :
  Forall whitelisted fs →
  (_format_filters fs = inl MultipleInequalityFields
   ↔ two_inequality_fields fs)
  ∧ (∀ e, _format_filters fs = inl e → e = MultipleInequalityFields).
Proof.
  intros Hw. unfold _format_filters.
  destruct (format_filters_loop_spec fs None [] Hw ltac:(discriminate))
    as [H1 H2].
  rewrite <- clash_None. split; [split; [| done] |].
  - intros He. by apply H2 in He as [_ ?].
  - intros e He. by apply H2 in He as [? _].
Qed.

(** C2. Inequality-field rule: on clauses whose field and operator names
    are in the two tables, [_format_filters] raises the
    MultipleInequalityFields error exactly when two clauses with an
    operator other than EQ are on two distinct fields; it raises nothing
    else, so it succeeds whenever all inequality clauses share one field;
    and whether it raises does not depend on the equality clauses. *)
Theorem inequality_field_rule (fs : list ConferenceQueryForm) :
  Forall whitelisted fs →
  (_format_filters fs = inl MultipleInequalityFields
   ↔ two_inequality_fields fs)
  ∧ ((∀ c1 c2, c1 ∈ fs → c2 ∈ fs → is_inequality c1 = true →
        is_inequality c2 = true → field c1 = field c2) →
     is_ok (_format_filters fs) = true)
  ∧ (_format_filters fs = inl MultipleInequalityFields
     ↔ _format_filters (List.filter is_inequality fs)
       = inl MultipleInequalityFields).
Proof.
  intros Hw.
  destruct (format_filters_raises fs Hw) as [Hiff Honly].
  split_and!; [done | |].
  - intros Hshare.
    destruct (_format_filters fs) as [e |] eqn:Hrun; [| done].
    rewrite (Honly e eq_refl) in Hiff.
    destruct Hiff as [(c1 & c2 & H1 & H2 & Hi1 & Hi2 & Hne) _]; [done |].
    destruct Hne. by apply Hshare.
  - destruct (format_filters_raises _ (whitelisted_filter fs Hw))
      as [Hiff' _].
    rewrite Hiff, Hiff'. apply two_inequality_fields_filter.
Qed.

Lemma inequality_field_rule_witness :
  Forall whitelisted clashing_filters
  ∧ _format_filters clashing_filters = inl MultipleInequalityFields.
Proof.
  assert (Hw : Forall whitelisted clashing_filters).
  { repeat constructor; eexists; vm_compute; reflexivity. }
  split; [exact Hw |].
  apply (proj1 (inequality_field_rule clashing_filters Hw)).
  unfold two_inequality_fields.
  exists (mkQueryForm "CITY" "NE" "London"), (mkQueryForm "MONTH" "GT" "6").
  split_and!; [| | reflexivity | reflexivity | discriminate].
  - apply list_elem_of_here.
  - do 2 apply list_elem_of_further. apply list_elem_of_here.
Defined.

(** C7. Query sort order: whenever [_get_query] builds a query, the query
    is sorted by the inequality field first and by name second when the
    clauses have an inequality field, and by name alone when they have
    none. *)
Theorem query_sort_order (fs : list ConferenceQueryForm) (q : Query) :
  _get_query fs = inr q → orders q = spec_sort_order fs.
Proof.
  unfold _get_query, spec_sort_order. intros Hrun.
  destruct (_format_filters fs) as [e | [ineq fmt]] eqn:Hfmt;
    [discriminate |].
  simpl in Hrun. apply get_query_loop_orders in Hrun. rewrite Hrun.
  apply format_filters_loop_field in Hfmt as [-> Htr]; [| discriminate].
  unfold or_else in *.
  destruct (spec_inequality_field fs) as [f |]; [| done].
  by rewrite (Htr f eq_refl).
Qed.

Lemma query_sort_order_witness :
  _get_query london_filters = inr london_query
  ∧ orders london_query = spec_sort_order london_filters.
Proof.
  assert (H : _get_query london_filters = inr london_query)
    by (vm_compute; reflexivity).
  split; [exact H |]. exact (query_sort_order london_filters london_query H).
Defined.




(** ** The handlers on a store *)

Lemma bind_run {A B} (m : M A) (f : A → M B) (st : Store) :
  (m ≫= f) st
  = match m st with
    | (inl e, st') => (inl e, st')
    | (inr x, st') => f x st'
    end.
Proof. reflexivity. Qed.

Lemma get_profile_from_user_run (user : User) (st : Store) :
  _get_profile_from_user (Some user) st
  = (inr (get_user_id user, caller_profile user st),
     with_caller_profile user st).
Proof.
  unfold _get_profile_from_user, caller_profile, with_caller_profile.
  rewrite bind_run. unfold get_profile at 1.
  unfold caller_profile.
  destruct (profiles st !! get_user_id user) as [p |] eqn:Hp; simpl.
  - unfold mret, M_ret. rewrite insert_id by done. by destruct st.
  - reflexivity.
Qed.

Lemma with_caller_profile_id (user : User) (st : Store) :
  is_Some (profiles st !! get_user_id user) → with_caller_profile user st = st.
Proof.
  intros [p Hp]. unfold with_caller_profile, caller_profile.
  rewrite Hp. simpl. rewrite insert_id by done. by destruct st.
Qed.

Lemma registration_body_run (user : User) (wsck : ConfKey) (reg : bool)
    (conf : Conference) (st : Store) :
  conferences st !! wsck = Some conf →
  conference_registration_body (Some user) wsck reg st
  = let prof := caller_profile user st in
    let present := bool_decide (wsck ∈ conferenceKeysToAttend prof) in
    let done_ (retval : bool) (prof' : Profile) (conf' : Conference) :=
      (inr retval,
       mkStore (<[get_user_id user := prof']> (profiles st))
         (<[wsck := conf']> (conferences st)) (next_id st) (tasks st)) in
    if reg then
      if present then (inl AlreadyRegistered, with_caller_profile user st)
      else if seatsAvailable conf <=? 0
      then (inl NoSeatsAvailable, with_caller_profile user st)
      else done_ true
             (set_conferenceKeysToAttend prof
                (conferenceKeysToAttend prof ++ [wsck]))
             (set_seatsAvailable conf (seatsAvailable conf - 1))
    else
      if present
      then done_ true
             (set_conferenceKeysToAttend prof
                (list_remove wsck (conferenceKeysToAttend prof)))
             (set_seatsAvailable conf (seatsAvailable conf + 1))
      else done_ false prof conf.
Proof.
  intros Hconf. unfold conference_registration_body.
  rewrite bind_run, get_profile_from_user_run.
  rewrite bind_run. unfold get_conference at 1.
  change (conferences (with_caller_profile user st)) with (conferences st).
  rewrite Hconf. cbv zeta.
  destruct reg;
    destruct (bool_decide (wsck ∈ conferenceKeysToAttend
                                   (caller_profile user st)));
    try destruct (seatsAvailable conf <=? 0);
    unfold mbind, M_bind, mret, M_ret, raise, put_profile, put_conference;
    simpl; rewrite ?insert_insert_eq; reflexivity.
Qed.

Lemma registration_body_not_found (user : User) (wsck : ConfKey)
    (reg : bool) (st : Store) :
  conferences st !! wsck = None →
  conference_registration_body (Some user) wsck reg st
  = (inl ConferenceNotFound, with_caller_profile user st).
Proof.
  intros Hconf. unfold conference_registration_body.
  rewrite bind_run, get_profile_from_user_run.
  rewrite bind_run. unfold get_conference at 1.
  change (conferences (with_caller_profile user st)) with (conferences st).
  by rewrite Hconf.
Qed.

Lemma list_remove_length (k : ConfKey) (l : list ConfKey) :
  k ∈ l → S (length (list_remove k l)) = length l.
Proof.
  induction l as [| y l IH]; intros Hin; [by apply elem_of_nil in Hin |].
  simpl. destruct (decide (k = y)) as [-> | Hne]; [done |].
  apply elem_of_cons in Hin as [-> | Hin]; [done |].
  simpl. by rewrite IH.
Qed.

Lemma list_remove_elem_of (k k' : ConfKey) (l : list ConfKey) :
  k' ∈ list_remove k l → k' ∈ l.
Proof.
  induction l as [| y l IH]; simpl; [done |].
  destruct (decide (k = y)) as [-> | Hne].
  - apply list_elem_of_further.
  - rewrite !elem_of_cons. intros [-> | Hin]; auto.
Qed.

Lemma list_remove_other (k k' : ConfKey) (l : list ConfKey) :
  k' ≠ k → k' ∈ list_remove k l ↔ k' ∈ l.
Proof.
  intros Hne. induction l as [| y l IH]; simpl; [done |].
  destruct (decide (k = y)) as [-> | Hne'].
  - rewrite elem_of_cons. intuition congruence.
  - rewrite !elem_of_cons, IH. done.
Qed.

Lemma list_remove_NoDup (k : ConfKey) (l : list ConfKey) :
  NoDup l → NoDup (list_remove k l) ∧ k ∉ list_remove k l.
Proof.
  induction 1 as [| y l Hy Hl IH]; simpl.
  - split; [constructor | apply not_elem_of_nil].
  - destruct (decide (k = y)) as [-> | Hne]; [done |].
    destruct IH as [IH1 IH2]. split.
    + constructor; [| done]. intros Hin. by apply list_remove_elem_of in Hin.
    + rewrite elem_of_cons. intuition congruence.
Qed.




(** C6, the code at work: for an authenticated caller,
    [_update_conference_object] stops at the unbound name [_getUserId],
    before it reads the Conference; it never reaches the ownership check,
    and the store is what it was. *)
Theorem update_conference_raises_NameError (st : Store) (user : User)
    (wsck : ConfKey) (request : ConferenceForm) :
  update_conference (Some user) wsck request st
  = (inl (NameError "_getUserId"), st).
Proof. reflexivity. Qed.

(** With the caller's id resolved the way the other handlers do it, the
    same body refuses a caller who is not the organizer. *)
Lemma update_conference_body_not_owner (st : Store) (user : User)
    (wsck : ConfKey) (request : ConferenceForm) (conf : Conference) :
  conferences st !! wsck = Some conf →
  get_user_id user ≠ organizerUserId conf →
  transactional
    (update_conference_body (mret (get_user_id user)) (Some user) wsck
       request) st
  = (inl NotOwner, st).
Proof.
  intros Hconf Hne. unfold transactional, update_conference_body.
  unfold mbind, M_bind, mret, M_ret, get_conference. rewrite Hconf.
  apply String.eqb_neq in Hne. by rewrite Hne.
Qed.

Lemma do_profile_run (user : User) (request : ProfileMiniForm) (st : Store) :
  _save_profile (Some user) request st
  = match process_fields request (caller_profile user st) with
    | inl e => (inl e, with_caller_profile user st)
    | inr prof =>
        (_copy_profile_to_form prof,
         mkStore (<[get_user_id user := prof]> (profiles st))
           (conferences st) (next_id st) (tasks st))
    end.
Proof.
  unfold _save_profile, _do_profile.
  rewrite bind_run, get_profile_from_user_run.
  unfold lift, mbind, M_bind, mret, M_ret, put_profile.
  destruct (process_fields request (caller_profile user st)) as [e | prof];
    [done |].
  simpl. by rewrite insert_insert_eq.
Qed.

Lemma process_fields_frame (request : ProfileMiniForm) (old new : Profile) :
  process_fields request old = inr new →
  userId new = userId old ∧ mainEmail new = mainEmail old
  ∧ conferenceKeysToAttend new = conferenceKeysToAttend old
  ∧ (truthy (pm_displayName request) = false →
     displayName new = displayName old)
  ∧ (pm_teeShirtSize request = None → teeShirtSize new = teeShirtSize old)
  ∧ (∀ v, pm_displayName request = Some v → v ≠ "" → displayName new = v)
  ∧ (∀ t, pm_teeShirtSize request = Some t →
       teeShirtSize new = str_of_size t).
Proof.
  unfold process_fields. intros Hrun.
  destruct (pm_displayName request) as [v |] eqn:Hv.
  - destruct (truthy (Some v)) eqn:Htr.
    + unfold str_of_unicode in Hrun.
      destruct (forallb _ _); simpl in Hrun; [| discriminate].
      destruct (pm_teeShirtSize request) as [t |]; injection Hrun as <-;
        simpl; split_and!; try done; intros; congruence.
    + simpl in Hrun.
      assert (v = "") as ->.
      { simpl in Htr. apply negb_false_iff in Htr.
        by apply String.eqb_eq in Htr. }
      destruct (pm_teeShirtSize request) as [t |]; injection Hrun as <-;
        simpl; split_and!; try done; intros; congruence.
  - simpl in Hrun.
    destruct (pm_teeShirtSize request) as [t |]; injection Hrun as <-;
      simpl; split_and!; try done; intros; congruence.
Qed.

(** C10. Frame of saveProfile: after any profile-save request of an
    authenticated caller the store holds the caller's Profile with the
    userId, mainEmail and conferenceKeysToAttend it had (as stored, or as
    made on first access); displayName keeps its value when the request's
    is absent or empty and teeShirtSize when the request's is absent, and
    on success a supplied value is the new one; no other Profile and no
    Conference is touched. *)
Theorem save_profile_frame (st : Store) (user : User)
    (request : ProfileMiniForm) :
  let old := caller_profile user st in
  let st' := (_save_profile (Some user) request st).2 in
  ∃ new,
    profiles st' !! get_user_id user = Some new
    ∧ userId new = userId old
    ∧ mainEmail new = mainEmail old
    ∧ conferenceKeysToAttend new = conferenceKeysToAttend old
    ∧ (truthy (pm_displayName request) = false →
       displayName new = displayName old)
    ∧ (pm_teeShirtSize request = None → teeShirtSize new = teeShirtSize old)
    ∧ (is_ok (process_fields request old) = true →
       (∀ v, pm_displayName request = Some v → v ≠ "" → displayName new = v)
       ∧ (∀ t, pm_teeShirtSize request = Some t →
            teeShirtSize new = str_of_size t))
    ∧ (∀ u, u ≠ get_user_id user → profiles st' !! u = profiles st !! u)
    ∧ conferences st' = conferences st.
Proof.
  intros old st'. unfold st'. rewrite do_profile_run. fold old.
  destruct (process_fields request old) as [e | new] eqn:Hrun.
  - exists old. simpl.
    split_and!; try done; [apply lookup_insert_eq |].
    intros u Hu. by rewrite lookup_insert_ne.
  - exists new. simpl.
    destruct (process_fields_frame _ _ _ Hrun)
      as (H1 & H2 & H3 & H4 & H5 & H6 & H7).
    split_and!; try done; [apply lookup_insert_eq |].
    intros u Hu. by rewrite lookup_insert_ne.
Qed.

(** ** Counting attendees *)

Lemma attendees_put (st : Store) (u : string) (p : Profile) (k : ConfKey) :
  (attendees (put_profile_store u p st) k + has_key k (profiles st !! u)
   = attendees st k + has_key k (Some p))%nat.
Proof.
  unfold attendees, put_profile_store. simpl.
  set (P := λ kp : string * Profile, k ∈ conferenceKeysToAttend kp.2).
  set (m := profiles st). set (X := filter P m).
  assert (Hold : has_key k (m !! u)
                 = match X !! u with Some _ => 1%nat | None => 0%nat end).
  { unfold has_key, X. destruct (m !! u) as [q |] eqn:Hq.
    - destruct (decide (k ∈ conferenceKeysToAttend q)) as [Hin | Hout].
      + by rewrite (map_lookup_filter_Some_2 P m u q Hq Hin).
      + destruct (filter P m !! u) as [q' |] eqn:Hq'; [| done].
        apply map_lookup_filter_Some in Hq' as [Hq' HP].
        rewrite Hq in Hq'. injection Hq' as <-. done.
    - destruct (filter P m !! u) as [q' |] eqn:Hq'; [| done].
      apply map_lookup_filter_Some in Hq' as [Hq' _]. congruence. }
  rewrite Hold. rewrite map_filter_insert. fold X. simpl.
  destruct (decide (P (u, p))) as [HP | HP].
  - rewrite decide_True by exact HP.
    rewrite map_size_insert. destruct (X !! u); simpl; lia.
  - rewrite decide_False by exact HP.
    rewrite map_filter_delete. fold X.
    destruct (X !! u) as [y |] eqn:Hy.
    + rewrite <- (insert_id X u y Hy) at 2.
      rewrite <- insert_delete_eq.
      rewrite map_size_insert_None by apply lookup_delete_eq. lia.
    + rewrite delete_id by done. lia.
Qed.

Lemma attendees_none (st : Store) (k : ConfKey) :
  (∀ u p, profiles st !! u = Some p → k ∉ conferenceKeysToAttend p) →
  attendees st k = 0%nat.
Proof.
  intros Hnone. unfold attendees.
  apply map_size_empty_iff, map_empty_filter.
  intros u p Hp. simpl. by apply Hnone in Hp.
Qed.

(** ** Conference creation on a store *)

Lemma create_conference_run (user : User) (request : ConferenceForm)
    (st : Store) :
  truthy (cf_name request) = true →
  _create_conference_object (Some user) request st
  = match convert_date (cf_startDate request),
          convert_date (cf_endDate request) with
    | inl e, _ => (inl e, st)
    | inr _, inl e => (inl e, st)
    | inr s, inr e_ =>
        match date_property s, date_property e_ with
        | inl e, _ => (inl e, id_taken st)
        | inr _, inl e => (inl e, id_taken st)
        | inr start, inr end_ =>
            (inr (created_form user request),
             conference_created user request start end_ st)
        end
    end.
Proof.
  intros Hname. unfold _create_conference_object. rewrite Hname. simpl.
  unfold mbind, M_bind, lift.
  destruct (convert_date (cf_startDate request)) as [e | s]; [done |].
  destruct (convert_date (cf_endDate request)) as [e | e_]; [done |].
  simpl.
  destruct s as [| ? | d]; simpl; try reflexivity;
    destruct e_ as [| ? | d']; reflexivity.
Qed.

Lemma convert_date_Some (s : string) :
  s ≠ "" →
  convert_date (Some s)
  = match parse_Ymd (slice_to 10 s) with
    | Some d => inr (SlotDate d)
    | None => inl InvalidDate
    end.
Proof.
  intros Hs. unfold convert_date, strptime_Ymd. simpl.
  apply String.eqb_neq in Hs. rewrite Hs. simpl.
  by destruct (parse_Ymd (slice_to 10 s)).
Qed.

(** What a successful conversion and validation of one date field gives. *)
Lemma date_field_stored (v : option string) (slot : DateSlot)
    (d : option date) :
  convert_date v = inr slot → date_property slot = inr d →
  d = (v ≫= λ s, parse_Ymd (slice_to 10 s))
  ∧ from_option d_month 0 d = month_of_slot slot.
Proof.
  destruct v as [s |]; simpl.
  - destruct (negb (String.eqb s "")) eqn:Hs.
    + unfold strptime_Ymd. destruct (parse_Ymd (slice_to 10 s)) as [d' |];
        simpl; [| discriminate].
      intros [= <-] [= <-]. done.
    + intros [= <-]. discriminate.
  - intros [= <-] [= <-]. done.
Qed.

Lemma date_field_ok_converts (v : option string) :
  date_field_ok v →
  ∃ slot d, convert_date v = inr slot ∧ date_property slot = inr d.
Proof.
  intros [-> | (s & -> & [d Hd])].
  - by exists SlotNone, None.
  - exists (SlotDate d), (Some d). split; [| done].
    assert (s ≠ "") as Hs by (intros ->; discriminate).
    by rewrite (convert_date_Some s Hs), Hd.
Qed.



(** ** The seat invariant *)

Lemma store_inv_empty : store_inv empty_store.
Proof.
  split_and!.
  - intros k c Hk. simpl in Hk. by rewrite lookup_empty in Hk.
  - intros u p Hp. simpl in Hp. by rewrite lookup_empty in Hp.
  - intros k [c Hk]. simpl in Hk. by rewrite lookup_empty in Hk.
Qed.

Lemma has_key_caller (user : User) (st : Store) (k : ConfKey) :
  has_key k (profiles st !! get_user_id user)
  = has_key k (Some (caller_profile user st)).
Proof.
  unfold caller_profile.
  by destruct (profiles st !! get_user_id user) as [p |].
Qed.

Lemma has_key_ext (k : ConfKey) (p q : Profile) :
  (k ∈ conferenceKeysToAttend p ↔ k ∈ conferenceKeysToAttend q) →
  has_key k (Some p) = has_key k (Some q).
Proof.
  intros Hiff. simpl.
  destruct (decide (k ∈ conferenceKeysToAttend p)),
    (decide (k ∈ conferenceKeysToAttend q)); tauto.
Qed.

Lemma caller_profile_inv (user : User) (st : Store) :
  store_inv st →
  NoDup (conferenceKeysToAttend (caller_profile user st))
  ∧ ∀ k, k ∈ conferenceKeysToAttend (caller_profile user st) →
         is_Some (conferences st !! k).
Proof.
  intros (_ & Hprof & _). unfold caller_profile.
  destruct (profiles st !! get_user_id user) as [p |] eqn:Hp; simpl.
  - by apply (Hprof _ _ Hp).
  - split; [constructor |]. intros k Hk. by apply elem_of_nil in Hk.
Qed.

(** Writing back the caller's Profile and one Conference keeps the
    invariant when the seats move against the membership of the key. *)
Lemma store_inv_put (st : Store) (user : User) (p' : Profile)
    (wsck : ConfKey) (conf c' : Conference) :
  store_inv st →
  conferences st !! wsck = Some conf →
  maxAttendees c' = maxAttendees conf →
  NoDup (conferenceKeysToAttend p') →
  (∀ k, k ∈ conferenceKeysToAttend p' → is_Some (conferences st !! k)) →
  (∀ k, k ≠ wsck →
     has_key k (Some p') = has_key k (Some (caller_profile user st))) →
  Z.of_nat (has_key wsck (Some p'))
  - Z.of_nat (has_key wsck (Some (caller_profile user st)))
  = seatsAvailable conf - seatsAvailable c' →
  0 ≤ seatsAvailable c' →
  store_inv
    (mkStore (<[get_user_id user := p']> (profiles st))
       (<[wsck := c']> (conferences st)) (next_id st) (tasks st)).
Proof.
  intros (Hseat & Hprof & Hfresh) Hconf Hmax Hnd Hkeys Hother Hdelta Hpos.
  set (st' := mkStore _ _ _ _).
  assert (Hatt : ∀ k,
    (attendees st' k + has_key k (Some (caller_profile user st))
     = attendees st k + has_key k (Some p'))%nat).
  { intros k. rewrite <- has_key_caller.
    apply (attendees_put st (get_user_id user) p' k). }
  split_and!.
  - intros k c Hk. simpl in Hk.
    destruct (decide (k = wsck)) as [-> | Hne].
    + rewrite lookup_insert_eq in Hk. injection Hk as <-.
      destruct (Hseat _ _ Hconf) as [Heq Hbound].
      specialize (Hatt wsck). lia.
    + rewrite lookup_insert_ne in Hk by done.
      destruct (Hseat _ _ Hk) as [Heq Hbound].
      specialize (Hatt k). rewrite (Hother k Hne) in Hatt.
      split; [| done]. rewrite Heq. f_equal. lia.
  - intros u p Hp. simpl in Hp.
    assert (Hgrow : ∀ k, is_Some (conferences st !! k) →
                         is_Some (conferences st' !! k)).
    { intros k Hk. simpl. rewrite lookup_insert_is_Some.
      destruct (decide (wsck = k)); auto. }
    destruct (decide (u = get_user_id user)) as [-> | Hne].
    + rewrite lookup_insert_eq in Hp. injection Hp as <-. split; [done |].
      intros k Hk. by apply Hgrow, Hkeys.
    + rewrite lookup_insert_ne in Hp by done.
      destruct (Hprof _ _ Hp) as [Hnd' Hkeys']. split; [done |].
      intros k Hk. by apply Hgrow, Hkeys'.
  - intros k Hk. simpl in *. apply Hfresh.
    apply lookup_insert_is_Some in Hk as [<- | [_ Hk]]; [by eexists | done].
Qed.

Lemma store_inv_id_taken (st : Store) : store_inv st → store_inv (id_taken st).
Proof.
  intros (Hseat & Hprof & Hfresh). split_and!; [done | done |].
  intros k Hk. simpl. specialize (Hfresh k Hk). lia.
Qed.

Lemma seats_follow_capacity_created (request : ConferenceForm) :
  seats_follow_capacity request = true →
  created_seats request = default DEFAULT_maxAttendees (cf_maxAttendees request)
  ∧ 0 ≤ created_seats request.
Proof.
  unfold seats_follow_capacity, created_seats, DEFAULT_maxAttendees,
    DEFAULT_seatsAvailable.
  destruct (Z.ltb_spec 0 (default 0 (cf_maxAttendees request))); simpl.
  - intros _. lia.
  - intros [Hm Hs]%andb_true_iff. lia.
Qed.

Lemma store_inv_created (st : Store) (user : User)
    (request : ConferenceForm) (start end_ : option date) :
  store_inv st → seats_follow_capacity request = true →
  store_inv (conference_created user request start end_ st).
Proof.
  intros (Hseat & Hprof & Hfresh) Hsafe.
  set (knew := (get_user_id user, next_id st)).
  assert (Hnew : conferences st !! knew = None).
  { destruct (conferences st !! knew) eqn:Hk; [| done].
    assert (knew.2 < next_id st)%positive by (apply Hfresh; by eexists).
    simpl in *. lia. }
  split_and!.
  - intros k c Hk. simpl in Hk. fold knew in Hk.
    destruct (decide (k = knew)) as [-> | Hne].
    + rewrite lookup_insert_eq in Hk. injection Hk as <-. simpl.
      destruct (seats_follow_capacity_created _ Hsafe) as [Heq Hpos].
      rewrite (attendees_none _ knew); [lia |].
      intros u p Hp Hin. simpl in Hp.
      destruct (Hprof _ _ Hp) as [_ Hkeys].
      destruct (Hkeys _ Hin) as [c Hc]. congruence.
    + rewrite lookup_insert_ne in Hk by done. by apply Hseat.
  - intros u p Hp. simpl in Hp. destruct (Hprof _ _ Hp) as [Hnd Hkeys].
    split; [done |]. intros k Hk. simpl.
    rewrite lookup_insert_is_Some. destruct (decide (knew = k)); auto.
  - intros k Hk. simpl in *.
    apply lookup_insert_is_Some in Hk as [<- | [_ Hk]]; simpl; [lia |].
    specialize (Hfresh k Hk). lia.
Qed.

Lemma reply_run {A} (f : A → Reply) (m : M A) (st : Store) :
  reply f m st = (f <$> (m st).1, (m st).2).
Proof.
  unfold reply. rewrite bind_run. by destruct (m st) as [[e | x] st'].
Qed.

Lemma seats_moved_same (st st' : Store) (delta : ConfKey → Z) :
  conferences st' = conferences st → (∀ k, delta k = 0) →
  seats_moved st st' delta.
Proof.
  intros Hsame Hzero k c Hk. exists c. rewrite Hsame, Hzero.
  split_and!; [done | done | lia].
Qed.

Lemma seats_moved_put (st st' : Store) (wsck : ConfKey)
    (conf c' : Conference) (d : Z) :
  conferences st' = <[wsck := c']> (conferences st) →
  conferences st !! wsck = Some conf →
  maxAttendees c' = maxAttendees conf →
  seatsAvailable c' = seatsAvailable conf + d →
  seats_moved st st' (λ k, if decide (k = wsck) then d else 0).
Proof.
  intros Hst' Hconf Hmax Hseats k c Hk. rewrite Hst'.
  destruct (decide (k = wsck)) as [-> | Hne].
  - exists c'. rewrite lookup_insert_eq.
    assert (c = conf) as -> by congruence. done.
  - exists c. rewrite lookup_insert_ne by done.
    split_and!; [done | done | lia].
Qed.

Lemma registration_step (st : Store) (user : option User) (wsck : ConfKey)
    (reg : bool) :
  store_inv st →
  let r := _conference_registration user wsck reg st in
  store_inv r.2 ∧ seats_moved st r.2 (registration_delta wsck reg r.1).
Proof.
  intros Hinv. unfold _conference_registration, transactional.
  destruct user as [user |].
  2:{ simpl. split; [done |]. by apply seats_moved_same. }
  destruct (conferences st !! wsck) as [conf |] eqn:Hconf.
  2:{ rewrite (registration_body_not_found user wsck reg st Hconf). simpl.
      split; [done |]. by apply seats_moved_same. }
  rewrite (registration_body_run user wsck reg conf st Hconf). cbv zeta.
  destruct (caller_profile_inv user st Hinv) as [Hnd Hkeys].
  pose proof Hinv as (Hseat & _ & _).
  destruct (Hseat _ _ Hconf) as [_ [Hpos _]].
  set (prof := caller_profile user st) in *.
  destruct reg.
  - destruct (bool_decide (wsck ∈ conferenceKeysToAttend prof)) eqn:Hin.
    { simpl. split; [done |]. by apply seats_moved_same. }
    apply bool_decide_eq_false in Hin.
    destruct (Z.leb_spec (seatsAvailable conf) 0) as [Hfull | Hfree].
    { simpl. split; [done |]. by apply seats_moved_same. }
    split.
    + apply (store_inv_put st user _ wsck conf _ Hinv Hconf).
      * done.
      * simpl. apply NoDup_app. split_and!; [done | | apply NoDup_singleton].
        intros k Hk ->%list_elem_of_singleton. done.
      * simpl. intros k [Hk | ->%list_elem_of_singleton]%elem_of_app;
          [by apply Hkeys | by eexists].
      * intros k Hne. apply has_key_ext. simpl.
        rewrite elem_of_app, list_elem_of_singleton. tauto.
      * unfold has_key. simpl. fold prof.
        rewrite decide_True by (apply elem_of_app; right;
                                 by apply list_elem_of_singleton).
        rewrite decide_False by done. lia.
      * simpl. lia.
    + eapply (seats_moved_put st _ wsck conf);
        [reflexivity | done | reflexivity | simpl; lia].
  - destruct (bool_decide (wsck ∈ conferenceKeysToAttend prof)) eqn:Hin.
    + apply bool_decide_eq_true in Hin.
      destruct (list_remove_NoDup wsck _ Hnd) as [Hnd' Hgone].
      split.
      * apply (store_inv_put st user _ wsck conf _ Hinv Hconf).
        -- done.
        -- done.
        -- simpl. intros k Hk. by apply Hkeys, (list_remove_elem_of wsck).
        -- intros k Hne. apply has_key_ext. simpl.
           by apply list_remove_other.
        -- unfold has_key. simpl. fold prof.
           rewrite decide_False by done.
           rewrite decide_True by done. lia.
        -- simpl. lia.
      * eapply (seats_moved_put st _ wsck conf);
        [reflexivity | done | reflexivity | simpl; lia].
    + apply bool_decide_eq_false in Hin. split.
      * apply (store_inv_put st user _ wsck conf _ Hinv Hconf);
          [done | done | done | done | unfold prof; lia | done].
      * simpl. apply seats_moved_same; [| done]. simpl.
        by apply insert_id.
Qed.

Lemma create_conference_step (st : Store) (user : option User)
    (request : ConferenceForm) :
  store_inv st → seats_follow_capacity request = true →
  let r := _create_conference_object user request st in
  store_inv r.2 ∧ seats_moved st r.2 no_delta.
Proof.
  intros Hinv Hsafe.
  destruct user as [user |].
  2:{ simpl. split; [done |]. by apply seats_moved_same. }
  destruct (truthy (cf_name request)) eqn:Hname.
  2:{ unfold _create_conference_object. rewrite Hname. simpl.
      split; [done |]. by apply seats_moved_same. }
  cbv zeta. rewrite (create_conference_run user request st Hname).
  destruct (convert_date (cf_startDate request)) as [e | s].
  { simpl. split; [done |]. by apply seats_moved_same. }
  destruct (convert_date (cf_endDate request)) as [e | e_].
  { simpl. split; [done |]. by apply seats_moved_same. }
  destruct (date_property s) as [e | start].
  { simpl. split; [by apply store_inv_id_taken |].
    by apply seats_moved_same. }
  destruct (date_property e_) as [e | end_].
  { simpl. split; [by apply store_inv_id_taken |].
    by apply seats_moved_same. }
  simpl. split; [by apply store_inv_created |].
  intros k c Hk. exists c. simpl.
  rewrite lookup_insert_ne; [split_and!; [done | done | unfold no_delta; lia] |].
  intros <-. destruct Hinv as (_ & _ & Hfresh).
  assert ((get_user_id user, next_id st).2 < next_id st)%positive
    by (apply Hfresh; by eexists).
  simpl in *. lia.
Qed.

Lemma update_conference_step (st : Store) (user : option User)
    (wsck : ConfKey) (request : ConferenceForm) :
  (_update_conference_object user wsck request st).2 = st
  ∧ is_ok (_update_conference_object user wsck request st).1 = false.
Proof. by destruct user. Qed.

Lemma call_step (st : Store) (op : Op) :
  store_inv st → seat_safe op = true →
  store_inv (call op st).2
  ∧ seats_moved st (call op st).2 (seat_change op (call op st).1).
Proof.
  intros Hinv Hsafe.
  destruct op as [user request | user wsck request | user wsck | user wsck];
    simpl call; rewrite reply_run; simpl fst; simpl snd.
  - destruct (create_conference_step st user request Hinv Hsafe)
      as [Hinv' Hmoved].
    split; [done |]. intros k c Hk.
    destruct (Hmoved k c Hk) as (c' & ? & ? & ?). exists c'.
    split_and!; [done | done |].
    by destruct (_create_conference_object user request st).1.
  - destruct (update_conference_step st user wsck request) as [-> Hfail].
    split; [done |]. apply seats_moved_same; [done |]. intros k.
    by destruct (_update_conference_object user wsck request st).1.
  - destruct (registration_step st user wsck true Hinv) as [Hinv' Hmoved].
    split; [done |]. intros k c Hk.
    destruct (Hmoved k c Hk) as (c' & ? & ? & Hd). exists c'.
    split_and!; [done | done |]. rewrite Hd.
    unfold register_for_conference.
    by destruct (_conference_registration user wsck true st).1 as [| []].
  - destruct (registration_step st user wsck false Hinv) as [Hinv' Hmoved].
    split; [done |]. intros k c Hk.
    destruct (Hmoved k c Hk) as (c' & ? & ? & Hd). exists c'.
    split_and!; [done | done |]. rewrite Hd.
    unfold unregister_from_conference.
    by destruct (_conference_registration user wsck false st).1 as [| []].
Qed.

Lemma run_calls_inv (ops : list Op) :
  ∀ st, store_inv st → forallb seat_safe ops = true →
        store_inv (run_calls ops st).
Proof.
  induction ops as [| op ops IH]; intros st Hinv Hsafe; [done |].
  simpl in Hsafe. apply andb_true_iff in Hsafe as [Hop Hops].
  unfold run_calls. simpl. apply IH; [| done].
  by apply call_step.
Qed.

Lemma patch_conference_seats (request : ConferenceForm)
    (conf conf' : Conference) :
  leaves_seats_alone request = true →
  patch_conference request conf = inr conf' →
  maxAttendees conf' = maxAttendees conf
  ∧ seatsAvailable conf' = seatsAvailable conf.
Proof.
  intros [Hm Hs]%andb_true_iff.
  apply bool_decide_eq_true in Hm, Hs.
  unfold patch_conference. rewrite Hm, Hs.
  destruct (patch_date (cf_startDate request) (startDate conf)); simpl;
    [discriminate |].
  destruct (patch_date (cf_endDate request) (endDate conf)); simpl;
    [discriminate |].
  by intros [= <-].
Qed.

Lemma store_inv_patched (st : Store) (wsck : ConfKey)
    (conf conf' : Conference) :
  store_inv st → conferences st !! wsck = Some conf →
  maxAttendees conf' = maxAttendees conf →
  seatsAvailable conf' = seatsAvailable conf →
  store_inv
    (mkStore (profiles st) (<[wsck := conf']> (conferences st)) (next_id st)
       (tasks st)).
Proof.
  intros (Hseat & Hprof & Hfresh) Hconf Hmax Hseats. split_and!.
  - intros k c Hk. simpl in Hk.
    destruct (decide (k = wsck)) as [-> | Hne].
    + rewrite lookup_insert_eq in Hk. injection Hk as <-.
      rewrite Hmax, Hseats. by apply Hseat.
    + rewrite lookup_insert_ne in Hk by done. by apply Hseat.
  - intros u p Hp. destruct (Hprof u p Hp) as [Hnd Hkeys]. split; [done |].
    intros k Hk. simpl. rewrite lookup_insert_is_Some.
    destruct (decide (wsck = k)); auto.
  - intros k Hk. simpl in *. apply Hfresh.
    apply lookup_insert_is_Some in Hk as [<- | [_ Hk]]; [by eexists | done].
Qed.

(** The update handler with the caller's id resolved some way that
    writes nothing to the store. *)
Section resolver.
Variable resolve_user_id : M string.
Hypothesis resolve_reads_only : ∀ s, (resolve_user_id s).2 = s.

Lemma update_conference_body_outcome (st st' : Store)
    (user : option User) (wsck : ConfKey) (request : ConferenceForm)
    (r : result ConferenceForm) :
  transactional
    (update_conference_body resolve_user_id user wsck request) st
  = (r, st') →
  st' = st
  ∨ ∃ conf conf',
      conferences st !! wsck = Some conf
      ∧ patch_conference request conf = inr conf'
      ∧ st' = mkStore (profiles st) (<[wsck := conf']> (conferences st))
                (next_id st) (tasks st).
Proof.
  intros Hrun. unfold transactional, update_conference_body in Hrun.
  destruct user as [user |]; [| left; by injection Hrun].
  rewrite bind_run in Hrun. pose proof (resolve_reads_only st) as Hpure.
  destruct (resolve_user_id st) as [[e | user_id] st1];
    [left; by injection Hrun |].
  simpl in Hpure. subst st1.
  rewrite bind_run in Hrun. unfold get_conference at 1 in Hrun.
  destruct (conferences st !! wsck) as [conf |] eqn:Hconf;
    [| left; by injection Hrun].
  destruct (negb (String.eqb user_id (organizerUserId conf)));
    [left; by injection Hrun |].
  rewrite bind_run in Hrun. unfold lift at 1 in Hrun.
  destruct (patch_conference request conf) as [e | conf'] eqn:Hpatch;
    [left; by injection Hrun |].
  unfold mbind, M_bind, put_conference, get_profile in Hrun.
  simpl in Hrun.
  destruct (profiles st !! user_id) as [prof |];
    [| left; by injection Hrun].
  right. exists conf, conf'. by injection Hrun.
Qed.

(** An update that patches neither seat field keeps the invariant and
    the seats, whoever the caller is taken to be. *)
Lemma update_conference_body_step (st : Store) (user : option User)
    (wsck : ConfKey) (request : ConferenceForm) :
  store_inv st → leaves_seats_alone request = true →
  let st' :=
    (transactional
       (update_conference_body resolve_user_id user wsck request) st).2 in
  store_inv st' ∧ seats_moved st st' no_delta.
Proof.
  intros Hinv Hsafe st'.
  destruct (update_conference_body_outcome st st' user wsck request _
              (surjective_pairing _))
    as [Hst' | (conf & conf' & Hconf & Hpatch & Hst')];
    rewrite Hst'.
  { split; [done |]. by apply seats_moved_same. }
  destruct (patch_conference_seats _ _ _ Hsafe Hpatch) as [Hmax Hseats].
  split; [by apply (store_inv_patched st wsck conf) |].
  intros k c Hk. simpl.
  destruct (decide (k = wsck)) as [-> | Hne].
  - exists conf'. rewrite lookup_insert_eq.
    assert (c = conf) as -> by congruence.
    split_and!; [done | done | unfold no_delta; lia].
  - exists c. rewrite lookup_insert_ne by done.
    split_and!; [done | done | unfold no_delta; lia].
Qed.
End resolver.




(** ** The theorems at concrete stores *)





(** ** Worked examples *)

(** The round trip of the specification: ten seats on creation, nine once
    bob has registered, ten again once he has unregistered. *)
Example round_trip_seats :
  seatsAvailable <$> conferences pycon_store !! pycon_key = Some 10
  ∧ seatsAvailable <$> conferences pycon_store_bob !! pycon_key = Some 9
  ∧ seatsAvailable <$>
      conferences
        (run_calls [UnregisterFromConference (Some bob) pycon_key]
           pycon_store_bob) !! pycon_key
    = Some 10.
Proof. split_and!; vm_compute; reflexivity. Qed.

(** A second registration by the same caller is refused and counted
    once. *)
Example registered_once :
  (call (RegisterForConference (Some bob) pycon_key) pycon_store_bob).1
  = inl AlreadyRegistered
  ∧ attendees pycon_store_bob pycon_key = 1%nat.
Proof. split; vm_compute; reflexivity. Qed.

(** The scenario of the specification: the two filters in the order given
    and the query sorted by maxAttendees, then by name. *)
Example london_scenario : _get_query london_filters = inr london_query.
Proof. vm_compute. reflexivity. Qed.

(** What the builtins accept. *)
Example py_int_samples :
  py_int " 42 " = Some 42 ∧ py_int "-7" = Some (-7) ∧ py_int "+7" = Some 7
  ∧ py_int "" = None ∧ py_int "4 2" = None ∧ py_int "1.5" = None
  ∧ py_int "-" = None.
Proof. split_and!; reflexivity. Qed.

Example parse_Ymd_samples :
  parse_Ymd "2015-06-01" = Some (mkDate 2015 6 1)
  ∧ parse_Ymd "2015-6-1" = Some (mkDate 2015 6 1)
  ∧ parse_Ymd "2016-02-29" = Some (mkDate 2016 2 29)
  ∧ parse_Ymd "2015-02-29" = None
  ∧ parse_Ymd "2015-13-01" = None
  ∧ parse_Ymd "2015-06-01T09:00:00" = None
  ∧ parse_Ymd (slice_to 10 "2015-06-01T09:00:00") = Some (mkDate 2015 6 1).
Proof. split_and!; vm_compute; reflexivity. Qed.

(** Were the caller's id resolved as in the other handlers, an organizer
    with a Profile could lower maxAttendees below the seats on offer: the
    reason the updates of the seat invariant set neither seat field. *)
Example update_patch_moves_capacity :
  let request :=
    mkConferenceForm None None None [] None None None (Some 5) None None
      None None in
  let st :=
    (transactional
       (update_conference_body (mret "alice") (Some alice) pycon_key request)
       (run_calls demo_calls empty_store)).2 in
  (maxAttendees <$> conferences st !! pycon_key = Some 5)
  ∧ (seatsAvailable <$> conferences st !! pycon_key = Some 9).
Proof. split; vm_compute; reflexivity. Qed.

(** * Further properties *)

(** ** The filter compiler, beyond the inequality rule *)

Lemma format_filters_loop_errors fs :
  ∀ ineq acc e,
    format_filters_loop fs ineq acc = inl e →
    e = invalid_field_or_operator ∨ e = MultipleInequalityFields.
Proof.
  induction fs as [| c fs IH]; intros ineq acc e Hrun; simpl in Hrun;
    [discriminate |].
  destruct (FIELDS !! field c) as [fld |];
    [| left; by injection Hrun as <-].
  destruct (OPERATORS !! operator c) as [op |];
    [| left; by injection Hrun as <-].
  destruct (negb (String.eqb op "=")); [| by eapply IH].
  destruct (truthy ineq && negb (bool_decide (ineq = Some fld)));
    [right; by injection Hrun as <- | by eapply IH].
Qed.

Lemma formatted_as_whitelisted fs fmts :
  Forall2 formatted_as fs fmts → Forall whitelisted fs.
Proof.
  induction 1 as [| c f fs fmts (Hf & Ho & _) _ IH]; constructor; [| done].
  split; by eexists.
Qed.

(** X1. The filter compiler accepts a clause list exactly when every field
    and operator name is in its table and no two inequality clauses are on
    distinct fields; it raises one of its two errors otherwise. *)
Theorem format_filters_accepts (fs : list ConferenceQueryForm) :
  (is_ok (_format_filters fs) = true
   ↔ Forall whitelisted fs ∧ ¬ two_inequality_fields fs)
  ∧ (∀ e, _format_filters fs = inl e →
       e = invalid_field_or_operator ∨ e = MultipleInequalityFields).
Proof.
  split; [| intros e; apply format_filters_loop_errors].
  split.
  - destruct (_format_filters fs) as [e | [ineq fmt]] eqn:Hrun;
      [discriminate |].
    intros _.
    pose proof Hrun as (new & _ & Hnew)%format_filters_loop_formatted.
    apply formatted_as_whitelisted in Hnew.
    split; [done |]. intros Htwo.
    apply (format_filters_raises fs Hnew) in Htwo. congruence.
  - intros [Hw Hnot].
    destruct (_format_filters fs) as [e |] eqn:Hrun; [| done].
    destruct (format_filters_raises fs Hw) as [Hiff Honly].
    destruct Hnot. apply Hiff. by rewrite (Honly e Hrun) in Hrun.
Qed.

(** X2. What the filter compiler hands back: the clauses in their order, each
    with its field and operator name mapped and its value as it came, and
    the property of the first inequality clause, if there is one. *)
Theorem format_filters_output (fs : list ConferenceQueryForm)
    (ineq : option string) (fmt : list Filtr) :
  _format_filters fs = inr (ineq, fmt) →
  Forall2 formatted_as fs fmt ∧ ineq = spec_inequality_field fs.
Proof.
  intros Hrun. split.
  - apply format_filters_loop_formatted in Hrun as (new & -> & Hnew).
    done.
  - by apply format_filters_loop_field in Hrun as [-> _].
Qed.

Lemma format_filters_output_witness :
  _format_filters london_filters
  = inr (Some "maxAttendees",
         [mkFiltr "city" "=" (VStr "London");
          mkFiltr "maxAttendees" ">" (VStr "10")])
  ∧ Some "maxAttendees" = spec_inequality_field london_filters.
Proof.
  assert (H : _format_filters london_filters
              = inr (Some "maxAttendees",
                     [mkFiltr "city" "=" (VStr "London");
                      mkFiltr "maxAttendees" ">" (VStr "10")]))
    by (vm_compute; reflexivity).
  split; [exact H |]. exact (proj2 (format_filters_output _ _ _ H)).
Defined.

(** ** Callers and keys the handlers refuse *)

(** X4. Every handler that needs the caller refuses a call without one and
    writes nothing, not even a Profile. *)
Theorem unauthenticated_refused (st : Store) (wsck : ConfKey)
    (request : ConferenceForm) (save_request : ProfileMiniForm)
    (scan : gmap ConfKey Conference → list (ConfKey * Conference)) :
  register_for_conference None wsck st = (inl Unauthenticated, st)
  ∧ unregister_from_conference None wsck st = (inl Unauthenticated, st)
  ∧ _create_conference None request st = (inl Unauthenticated, st)
  ∧ update_conference None wsck request st = (inl Unauthenticated, st)
  ∧ _get_profile None st = (inl Unauthenticated, st)
  ∧ _save_profile None save_request st = (inl Unauthenticated, st)
  ∧ get_conferences_to_attend None st = (inl Unauthenticated, st)
  ∧ get_conferences_created scan None st = (inl Unauthenticated, st).
Proof. split_and!; reflexivity. Qed.

(** X5. Registration and unregistration for a key that names no stored
    Conference raise the not-found error, and the transaction takes back
    the Profile made on first access: the store is what it was. *)
Theorem registration_unknown_key (st : Store) (user : User)
    (wsck : ConfKey) (reg : bool) :
  conferences st !! wsck = None →
  _conference_registration (Some user) wsck reg st
  = (inl ConferenceNotFound, st).
Proof.
  intros Hconf. unfold _conference_registration, transactional.
  by rewrite (registration_body_not_found user wsck reg st Hconf).
Qed.

Lemma registration_unknown_key_witness :
  conferences empty_store !! pycon_key = None
  ∧ _conference_registration (Some bob) pycon_key true empty_store
    = (inl ConferenceNotFound, empty_store).
Proof.
  split; [reflexivity |].
  apply (registration_unknown_key empty_store bob pycon_key true).
  reflexivity.
Defined.

(** ** Registering, then unregistering *)

Lemma list_remove_app_new (k : ConfKey) (l : list ConfKey) :
  k ∉ l → list_remove k (l ++ [k]) = l.
Proof.
  induction l as [| y l IH]; intros Hnew; simpl.
  - by rewrite decide_True.
  - apply not_elem_of_cons in Hnew as [Hne Hnew].
    rewrite decide_False by done. by rewrite IH.
Qed.

Lemma caller_profile_put (user : User) (p : Profile) (st : Store)
    (confs : gmap ConfKey Conference) :
  caller_profile user
    (mkStore (<[get_user_id user := p]> (profiles st)) confs (next_id st)
       (tasks st))
  = p.
Proof. unfold caller_profile. simpl. by rewrite lookup_insert_eq. Qed.

(** X6. A registration that succeeds and the unregistration that follows it
    undo each other: the second answers true and the store is the one
    before the registration, with the caller's Profile in it. *)
Theorem register_unregister_round_trip (st : Store) (user : User)
    (wsck : ConfKey) (conf : Conference) :
  conferences st !! wsck = Some conf →
  0 < seatsAvailable conf →
  wsck ∉ conferenceKeysToAttend (caller_profile user st) →
  let st1 := (register_for_conference (Some user) wsck st).2 in
  (register_for_conference (Some user) wsck st).1 = inr true
  ∧ unregister_from_conference (Some user) wsck st1
    = (inr true, with_caller_profile user st).
Proof.
  intros Hconf Hseats Hnew.
  unfold register_for_conference, unregister_from_conference,
    _conference_registration, transactional.
  rewrite (registration_body_run user wsck true conf st Hconf). cbv zeta.
  rewrite (bool_decide_eq_false_2 _ Hnew).
  destruct (Z.leb_spec (seatsAvailable conf) 0) as [? | _]; [lia |].
  simpl. split; [done |].
  set (conf1 := set_seatsAvailable conf (seatsAvailable conf - 1)).
  set (prof1 := set_conferenceKeysToAttend _ _).
  set (st1 := mkStore _ _ _ _).
  assert (Hconf1 : conferences st1 !! wsck = Some conf1)
    by apply lookup_insert_eq.
  assert (Hprof1 : caller_profile user st1 = prof1)
    by apply caller_profile_put.
  rewrite (registration_body_run user wsck false conf1 st1 Hconf1).
  cbv zeta. rewrite Hprof1.
  assert (Hkeys : conferenceKeysToAttend prof1
                  = (conferenceKeysToAttend (caller_profile user st)
                     ++ [wsck])%list)
    by reflexivity.
  rewrite bool_decide_eq_true_2.
  2:{ rewrite Hkeys. apply elem_of_app. right.
      by apply list_elem_of_singleton. }
  rewrite Hkeys, (list_remove_app_new _ _ Hnew).
  unfold with_caller_profile, st1. simpl.
  rewrite !insert_insert_eq.
  assert (Hp : set_conferenceKeysToAttend prof1
                 (conferenceKeysToAttend (caller_profile user st))
               = caller_profile user st)
    by (unfold prof1; by destruct (caller_profile user st)).
  assert (Hc : set_seatsAvailable conf1 (seatsAvailable conf - 1 + 1) = conf).
  { unfold conf1, set_seatsAvailable. destruct conf. simpl. f_equal. lia. }
  rewrite Hp, Hc. by rewrite (insert_id (conferences st) wsck conf).
Qed.

Lemma register_unregister_round_trip_witness :
  conferences pycon_store !! pycon_key = Some (pycon_entity 10)
  ∧ unregister_from_conference (Some bob) pycon_key
      (register_for_conference (Some bob) pycon_key pycon_store).2
    = (inr true, with_caller_profile bob pycon_store).
Proof.
  assert (H1 : conferences pycon_store !! pycon_key = Some (pycon_entity 10))
    by (vm_compute; reflexivity).
  split; [exact H1 |].
  apply (register_unregister_round_trip pycon_store bob pycon_key
           (pycon_entity 10) H1).
  - reflexivity.
  - vm_compute. intros H. inversion H.
Defined.

(** ** Creation *)

Lemma converts_date_field_ok (v : option string) (slot : DateSlot)
    (d : option date) :
  convert_date v = inr slot → date_property slot = inr d → date_field_ok v.
Proof.
  destruct v as [s |]; [| by left]. simpl.
  destruct (negb (String.eqb s "")).
  - unfold strptime_Ymd.
    destruct (parse_Ymd (slice_to 10 s)) as [d' |] eqn:Hd;
      [| discriminate].
    intros _ _. right. exists s. split; [done |]. rewrite Hd. by eexists.
  - intros [= <-]. discriminate.
Qed.


Lemma create_conference_success (st st' : Store) (user : User)
    (request form : ConferenceForm) :
  _create_conference_object (Some user) request st = (inr form, st') →
  truthy (cf_name request) = true
  ∧ form = created_form user request
  ∧ ∃ start end_, st' = conference_created user request start end_ st.
Proof.
  intros Hrun.
  destruct (truthy (cf_name request)) eqn:Hname.
  2:{ unfold _create_conference_object in Hrun. rewrite Hname in Hrun.
      discriminate. }
  rewrite (create_conference_run user request st Hname) in Hrun.
  destruct (convert_date (cf_startDate request)); [discriminate |].
  destruct (convert_date (cf_endDate request)); [discriminate |].
  destruct (date_property _) as [| start]; [discriminate |].
  destruct (date_property _) as [| end_]; [discriminate |].
  injection Hrun as <- <-. split_and!; [done | done |]. by exists start, end_.
Qed.

(** ** Profiles *)

Lemma size_of_name_str (t : TeeShirtSize) :
  size_of_name (str_of_size t) = Some t.
Proof. by destruct t. Qed.

Lemma get_profile_run (user : User) (st : Store) :
  _get_profile (Some user) st
  = (_copy_profile_to_form (caller_profile user st),
     with_caller_profile user st).
Proof.
  unfold _get_profile, _do_profile.
  rewrite bind_run, get_profile_from_user_run.
  unfold lift, mbind, M_bind, mret, M_ret. reflexivity.
Qed.

Lemma caller_profile_with (user : User) (st : Store) :
  caller_profile user (with_caller_profile user st) = caller_profile user st.
Proof.
  unfold with_caller_profile at 1. unfold caller_profile at 1. simpl.
  by rewrite lookup_insert_eq.
Qed.

Lemma with_caller_profile_idem (user : User) (st : Store) :
  with_caller_profile user (with_caller_profile user st)
  = with_caller_profile user st.
Proof.
  apply with_caller_profile_id. unfold with_caller_profile. simpl.
  rewrite lookup_insert_eq. by eexists.
Qed.

(** X12. getProfile on first access stores a Profile with the caller's
    nickname and email, no tee shirt size and no conferences, and answers
    with it; asked again it answers the same and writes nothing; and it
    never alters a Profile that is stored. *)
Theorem get_profile_first_access (st : Store) (user : User) :
  let r := _get_profile (Some user) st in
  (profiles st !! get_user_id user = None →
   r.1 = inr (mkProfileForm (nickname user) (email user) NOT_SPECIFIED [])
   ∧ profiles r.2 !! get_user_id user
     = Some (mkProfile (get_user_id user) (nickname user) (email user)
               "NOT_SPECIFIED" []))
  ∧ (is_Some (profiles st !! get_user_id user) → r.2 = st)
  ∧ _get_profile (Some user) r.2 = r.
Proof.
  intros r. unfold r. rewrite get_profile_run. simpl. split_and!.
  - intros Hnone. unfold with_caller_profile, caller_profile.
    rewrite Hnone. simpl. split; [done | apply lookup_insert_eq].
  - apply with_caller_profile_id.
  - by rewrite get_profile_run, caller_profile_with,
      with_caller_profile_idem.
Qed.

Lemma process_fields_ok (request : ProfileMiniForm) (old : Profile) :
  process_fields request old
  = if truthy (pm_displayName request)
       && negb (ascii_only (default "" (pm_displayName request)))
    then inl UnicodeEncodeError
    else inr (mkProfile (userId old)
                (if truthy (pm_displayName request)
                 then default "" (pm_displayName request)
                 else displayName old)
                (mainEmail old)
                (from_option str_of_size (teeShirtSize old)
                   (pm_teeShirtSize request))
                (conferenceKeysToAttend old)).
Proof.
  unfold process_fields, str_of_unicode, ascii_only.
  destruct (pm_displayName request) as [v |]; simpl.
  - destruct (negb (String.eqb v "")); simpl.
    + destruct (forallb _ _); simpl; [| done].
      by destruct (pm_teeShirtSize request).
    + destruct (pm_teeShirtSize request); by destruct old.
  - destruct (pm_teeShirtSize request); by destruct old.
Qed.

(** X13. saveProfile answers with the Profile it stored: the supplied name when
    that is non-empty, the supplied size, and the email and conference
    keys as they were; with a size supplied it succeeds whenever the name
    is absent, empty or ASCII. A name that is not ASCII makes it raise
    after the Profile of a first access was stored, which stays. A
    following getProfile repeats the answer and writes nothing. *)
Theorem save_profile_answer (st : Store) (user : User)
    (request : ProfileMiniForm) :
  let r := _save_profile (Some user) request st in
  let old := caller_profile user st in
  let name_given := truthy (pm_displayName request) in
  let new_name := default "" (pm_displayName request) in
  (name_given = true → ascii_only new_name = false →
   r = (inl UnicodeEncodeError, with_caller_profile user st))
  ∧ (∀ t, pm_teeShirtSize request = Some t →
       (name_given = true → ascii_only new_name = true) →
       r.1 = inr (mkProfileForm
                    (if name_given then new_name else displayName old)
                    (mainEmail old) t (conferenceKeysToAttend old)))
  ∧ (∀ form, r.1 = inr form →
       pf_displayName form
       = (if name_given then new_name else displayName old)
       ∧ pf_mainEmail form = mainEmail old
       ∧ pf_conferenceKeysToAttend form = conferenceKeysToAttend old
       ∧ _get_profile (Some user) r.2 = (inr form, r.2)).
Proof.
  intros r old name_given new_name. unfold r.
  rewrite do_profile_run, process_fields_ok.
  fold old name_given new_name. split_and!.
  - intros -> ->. done.
  - intros t Ht Hascii.
    rewrite Ht.
    assert (name_given && negb (ascii_only new_name) = false) as ->.
    { destruct name_given; [| done]. by rewrite Hascii. }
    cbn [fst from_option]. unfold _copy_profile_to_form.
    cbn [teeShirtSize displayName mainEmail conferenceKeysToAttend].
    by rewrite size_of_name_str.
  - intros form.
    destruct (name_given && negb (ascii_only new_name)); [discriminate |].
    set (new := mkProfile _ _ _ _ _). simpl. intros Hform.
    assert (Hfields : pf_displayName form = displayName new
                      ∧ pf_mainEmail form = mainEmail new
                      ∧ pf_conferenceKeysToAttend form
                        = conferenceKeysToAttend new).
    { unfold _copy_profile_to_form in Hform.
      destruct (size_of_name (teeShirtSize new)); [| discriminate].
      by injection Hform as <-. }
    destruct Hfields as (Hn & Hm & Hk).
    split_and!; [done | done | done |].
    rewrite get_profile_run.
    assert (Hcp : caller_profile user
                    (mkStore (<[get_user_id user := new]> (profiles st))
                       (conferences st) (next_id st) (tasks st)) = new)
      by apply caller_profile_put.
    rewrite Hcp, Hform. f_equal.
    unfold with_caller_profile. rewrite Hcp. simpl.
    by rewrite insert_insert_eq.
Qed.

(** ** Reading a Conference back *)

Lemma getConference_run (k : ConfKey) (s : Store) :
  getConference k s
  = (match conferences s !! k with
     | None => inl ConferenceNotFound
     | Some conf =>
         match profiles s !! k.1 with
         | None => inl (AttributeError "displayName")
         | Some prof =>
             inr (_copy_conference_to_form k conf (displayName prof))
         end
     end, s).
Proof.
  unfold getConference, get_conference, get_profile, mbind, M_bind.
  destruct (conferences s !! k); [| done].
  by destruct (profiles s !! k.1).
Qed.

(** X10. getConference never writes. Right after a createConference that
    succeeded it raises AttributeError for the new key when the organizer
    has no Profile, which creating a Conference does not make; when the
    organizer has one it answers with the name, organizer, capacity and
    seats that were stored, the key, and the organizer's display name if
    that is not empty. *)
Theorem get_conference_after_create (st st' : Store) (user : User)
    (request form : ConferenceForm) :
  _create_conference_object (Some user) request st = (inr form, st') →
  let c_key := (get_user_id user, next_id st) in
  (∀ k s, (getConference k s).2 = s)
  ∧ (profiles st !! get_user_id user = None →
     (getConference c_key st').1 = inl (AttributeError "displayName"))
  ∧ (∀ p, profiles st !! get_user_id user = Some p →
       ∃ f, (getConference c_key st').1 = inr f
            ∧ cf_name f = cf_name request
            ∧ cf_organizerUserId f = Some (get_user_id user)
            ∧ cf_maxAttendees f = cf_maxAttendees form
            ∧ cf_seatsAvailable f = Some (created_seats request)
            ∧ cf_websafeKey f = Some c_key
            ∧ cf_organizerDisplayName f
              = (if truthy (Some (displayName p))
                 then Some (displayName p) else None)).
Proof.
  intros Hrun c_key.
  destruct (create_conference_success _ _ _ _ _ Hrun)
    as (Hname & -> & start & end_ & ->).
  assert (Hconf : conferences (conference_created user request start end_ st)
                  !! c_key = Some (created_entity user request start end_))
    by apply lookup_insert_eq.
  assert (Hprof : profiles (conference_created user request start end_ st)
                  = profiles st) by reflexivity.
  split_and!.
  - intros k s. by rewrite getConference_run.
  - intros Hnone. rewrite getConference_run, Hconf, Hprof. simpl.
    by rewrite Hnone.
  - intros p Hp. rewrite getConference_run, Hconf, Hprof. simpl.
    rewrite Hp. eexists. split; [reflexivity |]. simpl.
    split_and!; try done.
    destruct (cf_name request); [done | discriminate].
Qed.

Lemma get_conference_after_create_witness :
  _create_conference_object (Some alice) pycon empty_store
  = (inr (created_form alice pycon),
     conference_created alice pycon (Some (mkDate 2015 6 1)) None empty_store)
  ∧ (getConference pycon_key pycon_store).1
    = inl (AttributeError "displayName").
Proof.
  assert (H : _create_conference_object (Some alice) pycon empty_store
              = (inr (created_form alice pycon),
                 conference_created alice pycon (Some (mkDate 2015 6 1))
                   None empty_store))
    by (vm_compute; reflexivity).
  split; [exact H |].
  apply (get_conference_after_create _ _ _ _ _ H). reflexivity.
Defined.

(** ** What every call keeps *)

Lemma get_conferences_to_attend_run (user : User) (st : Store) :
  get_conferences_to_attend (Some user) st
  = (let st1 := with_caller_profile user st in
     let ndb_keys := conferenceKeysToAttend (caller_profile user st) in
     let confs := (λ k, conferences st1 !! k) <$> ndb_keys in
     organisers ← comprehension organizer_of confs;
     _ ← comprehension name_entry
           (zip organisers ((λ k, profiles st1 !! k) <$> organisers));
     comprehension
       (λ kc : ConfKey * option Conference,
          match kc.2 with
          | Some conf => inr (_copy_conference_to_form kc.1 conf "")
          | None => inl (AttributeError "name")
          end)
       (zip ndb_keys confs),
     with_caller_profile user st).
Proof.
  unfold get_conferences_to_attend.
  rewrite bind_run, get_profile_from_user_run. cbv zeta.
  unfold mbind at 1, M_bind at 1, get_multi_conferences at 1.
  unfold mbind at 1, M_bind at 1, lift at 1.
  destruct (comprehension organizer_of _) as [e | organisers]; [done |].
  unfold mbind at 1, M_bind at 1, get_multi_profiles at 1.
  unfold mbind at 1, M_bind at 1, lift at 1.
  simpl.
  destruct (comprehension name_entry _) as [e | names]; [done |].
  reflexivity.
Qed.

Lemma caller_profile_wf (user : User) (st : Store) :
  store_wf st →
  userId (caller_profile user st) = get_user_id user
  ∧ NoDup (conferenceKeysToAttend (caller_profile user st))
  ∧ ∀ k, k ∈ conferenceKeysToAttend (caller_profile user st) →
         is_Some (conferences st !! k).
Proof.
  intros [Hprof _]. unfold caller_profile.
  destruct (profiles st !! get_user_id user) as [p |] eqn:Hp; simpl.
  - by apply (Hprof _ _ Hp).
  - split_and!; [done | constructor |].
    intros k Hk. by apply elem_of_nil in Hk.
Qed.

(** Writing a Profile under its userId, with keys of stored Conferences
    and no duplicates, over Conferences with the same keys as before. *)
Lemma store_wf_put (st : Store) (u : string) (p' : Profile)
    (confs : gmap ConfKey Conference) :
  store_wf st →
  userId p' = u →
  NoDup (conferenceKeysToAttend p') →
  (∀ k, k ∈ conferenceKeysToAttend p' → is_Some (conferences st !! k)) →
  (∀ k, is_Some (confs !! k) ↔ is_Some (conferences st !! k)) →
  store_wf (mkStore (<[u := p']> (profiles st)) confs (next_id st)
              (tasks st)).
Proof.
  intros [Hprof Hfresh] Hid Hnd Hkeys Hdom. split.
  - intros v p Hp. simpl in *.
    destruct (decide (v = u)) as [-> | Hne].
    + rewrite lookup_insert_eq in Hp. injection Hp as <-.
      split_and!; [done | done |]. intros k Hk. by apply Hdom, Hkeys.
    + rewrite lookup_insert_ne in Hp by done.
      destruct (Hprof _ _ Hp) as (? & ? & Hk').
      split_and!; [done | done |]. intros k Hk. by apply Hdom, Hk'.
  - intros k Hk. simpl in *. by apply Hfresh, Hdom.
Qed.

Lemma store_wf_with_caller_profile (user : User) (st : Store) :
  store_wf st → store_wf (with_caller_profile user st).
Proof.
  intros Hwf. destruct (caller_profile_wf user st Hwf) as (? & ? & ?).
  by apply store_wf_put.
Qed.

Lemma insert_is_Some_same (confs : gmap ConfKey Conference) (k k' : ConfKey)
    (c c' : Conference) :
  confs !! k = Some c →
  is_Some (<[k := c']> confs !! k') ↔ is_Some (confs !! k').
Proof.
  intros Hk. rewrite lookup_insert_is_Some. split.
  - intros [<- | [_ ?]]; [by eexists | done].
  - intros ?. destruct (decide (k = k')); auto.
Qed.

Lemma registration_wf (st : Store) (user : option User) (wsck : ConfKey)
    (reg : bool) :
  store_wf st → store_wf (_conference_registration user wsck reg st).2.
Proof.
  intros Hwf. unfold _conference_registration, transactional.
  destruct user as [user |]; [| done].
  destruct (conferences st !! wsck) as [conf |] eqn:Hconf.
  2:{ by rewrite (registration_body_not_found user wsck reg st Hconf). }
  rewrite (registration_body_run user wsck reg conf st Hconf). cbv zeta.
  destruct (caller_profile_wf user st Hwf) as (Hid & Hnd & Hkeys).
  set (prof := caller_profile user st) in *.
  destruct reg.
  - destruct (bool_decide (wsck ∈ conferenceKeysToAttend prof)) eqn:Hin;
      [done |].
    apply bool_decide_eq_false in Hin.
    destruct (seatsAvailable conf <=? 0); [done |]. simpl.
    apply store_wf_put; simpl; try done.
    + apply NoDup_app. split_and!; [done | | apply NoDup_singleton].
      intros k Hk ->%list_elem_of_singleton. done.
    + intros k [Hk | ->%list_elem_of_singleton]%elem_of_app;
        [by apply Hkeys | by eexists].
    + intros k. by eapply insert_is_Some_same.
  - destruct (bool_decide (wsck ∈ conferenceKeysToAttend prof)) eqn:Hin;
      simpl.
    + apply store_wf_put; simpl; try done.
      * by apply list_remove_NoDup.
      * intros k Hk. by apply Hkeys, (list_remove_elem_of wsck).
      * intros k. by eapply insert_is_Some_same.
    + apply store_wf_put; simpl; try done.
      intros k. by eapply insert_is_Some_same.
Qed.

Lemma create_conference_wf (st : Store) (user : option User)
    (request : ConferenceForm) :
  store_wf st → store_wf (_create_conference_object user request st).2.
Proof.
  intros Hwf. destruct user as [user |]; [| done].
  destruct (truthy (cf_name request)) eqn:Hname.
  2:{ unfold _create_conference_object. by rewrite Hname. }
  rewrite (create_conference_run user request st Hname).
  assert (Htaken : store_wf (id_taken st)).
  { destruct Hwf as [Hprof Hfresh]. split; [done |].
    intros k Hk. simpl. specialize (Hfresh k Hk). lia. }
  destruct (convert_date (cf_startDate request)); [done |].
  destruct (convert_date (cf_endDate request)); [done |].
  destruct (date_property _) as [| start]; [done |].
  destruct (date_property _) as [| end_]; [done |].
  simpl. destruct Hwf as [Hprof Hfresh]. split.
  - intros u p Hp. simpl in *. destruct (Hprof _ _ Hp) as (? & ? & Hkeys).
    split_and!; [done | done |]. intros k Hk.
    rewrite lookup_insert_is_Some.
    destruct (decide ((get_user_id user, next_id st) = k)); auto.
  - intros k Hk. simpl in *.
    apply lookup_insert_is_Some in Hk as [<- | [_ Hk]]; simpl; [lia |].
    specialize (Hfresh k Hk). lia.
Qed.

Lemma save_profile_store (user : User) (request : ProfileMiniForm)
    (st : Store) :
  ∃ p', (_save_profile (Some user) request st).2
        = mkStore (<[get_user_id user := p']> (profiles st)) (conferences st)
            (next_id st) (tasks st)
        ∧ userId p' = userId (caller_profile user st)
        ∧ conferenceKeysToAttend p'
          = conferenceKeysToAttend (caller_profile user st).
Proof.
  rewrite do_profile_run, process_fields_ok.
  destruct (_ && _); eexists; split_and!; reflexivity.
Qed.

Lemma api_store_wf (a : Api) (st : Store) :
  store_wf st → store_wf (api_store a st).
Proof.
  intros Hwf.
  destruct a as [op | user | user request | wsck | user]; simpl.
  - destruct op as [user request | user wsck request | user wsck
                   | user wsck]; simpl; rewrite reply_run; simpl.
    + by apply create_conference_wf.
    + by destruct (update_conference_step st user wsck request) as [-> _].
    + by apply registration_wf.
    + by apply registration_wf.
  - destruct user as [user |]; [| done]. rewrite get_profile_run.
    by apply store_wf_with_caller_profile.
  - destruct user as [user |]; [| done].
    destruct (save_profile_store user request st) as (p' & -> & Hid & Hk).
    destruct (caller_profile_wf user st Hwf) as (Hid' & Hnd & Hkeys).
    apply store_wf_put; try done; [congruence | by rewrite Hk |].
    intros k. rewrite Hk. apply Hkeys.
  - by rewrite getConference_run.
  - destruct user as [user |]; [| done].
    rewrite get_conferences_to_attend_run.
    by apply store_wf_with_caller_profile.
Qed.

Lemma store_wf_empty : store_wf empty_store.
Proof.
  split.
  - intros u p Hp. simpl in Hp. by rewrite lookup_empty in Hp.
  - intros k [c Hk]. simpl in Hk. by rewrite lookup_empty in Hk.
Qed.

Lemma run_api_wf (calls : list Api) :
  ∀ st, store_wf st → store_wf (run_api calls st).
Proof.
  induction calls as [| a calls IH]; intros st Hwf; [done |].
  unfold run_api. simpl. apply IH. by apply api_store_wf.
Qed.


(** Writing the caller's Profile with the keys it had keeps the seat
    invariant. *)
Lemma store_inv_profile_put (st : Store) (user : User) (p' : Profile) :
  store_inv st →
  conferenceKeysToAttend p'
  = conferenceKeysToAttend (caller_profile user st) →
  store_inv
    (mkStore (<[get_user_id user := p']> (profiles st)) (conferences st)
       (next_id st) (tasks st)).
Proof.
  intros Hinv Hkeys.
  destruct (caller_profile_inv user st Hinv) as [Hnd Hexist].
  destruct Hinv as (Hseat & Hprof & Hfresh).
  set (st' := mkStore _ _ _ _).
  assert (Hatt : ∀ k, attendees st' k = attendees st k).
  { intros k.
    pose proof (attendees_put st (get_user_id user) p' k) as Hput.
    rewrite has_key_caller in Hput.
    rewrite (has_key_ext k p' (caller_profile user st)) in Hput
      by (by rewrite Hkeys).
    unfold st'. unfold put_profile_store in Hput. lia. }
  split_and!.
  - intros k c Hk. rewrite Hatt. by apply Hseat.
  - intros u p Hp. simpl in Hp.
    destruct (decide (u = get_user_id user)) as [-> | Hne].
    + rewrite lookup_insert_eq in Hp. injection Hp as <-.
      rewrite Hkeys. by split.
    + rewrite lookup_insert_ne in Hp by done. by apply (Hprof u).
  - done.
Qed.

Lemma api_store_inv (a : Api) (st : Store) :
  store_inv st → api_seat_safe a = true → store_inv (api_store a st).
Proof.
  intros Hinv Hsafe.
  destruct a as [op | user | user request | wsck | user]; simpl.
  - by apply call_step.
  - destruct user as [user |]; [| done]. rewrite get_profile_run.
    by apply store_inv_profile_put.
  - destruct user as [user |]; [| done].
    destruct (save_profile_store user request st) as (p' & -> & _ & Hk).
    by apply store_inv_profile_put.
  - by rewrite getConference_run.
  - destruct user as [user |]; [| done].
    rewrite get_conferences_to_attend_run.
    by apply store_inv_profile_put.
Qed.



(** ** Filling a Conference *)

Lemma caller_profile_other (user other : User) (p : Profile) (st : Store)
    (confs : gmap ConfKey Conference) :
  get_user_id other ≠ get_user_id user →
  caller_profile other
    (mkStore (<[get_user_id user := p]> (profiles st)) confs (next_id st)
       (tasks st))
  = caller_profile other st.
Proof.
  intros Hne. unfold caller_profile. simpl. by rewrite lookup_insert_ne.
Qed.

(** X8. Callers with distinct ids, none of them registered, register one after
    the other for a Conference with [s] seats: the first [s] of them are
    answered true, all the others get the no-seats conflict, and the
    Conference is left with the seats nobody took. *)
Theorem register_all_capacity (us : list User) (wsck : ConfKey) :
  ∀ (st : Store) (conf : Conference),
    conferences st !! wsck = Some conf →
    0 ≤ seatsAvailable conf →
    NoDup (get_user_id <$> us) →
    (∀ u, u ∈ us → wsck ∉ conferenceKeysToAttend (caller_profile u st)) →
    let s := Z.to_nat (seatsAvailable conf) in
    (register_all us wsck st).1
    = (replicate (s `min` length us) (inr true)
       ++ replicate (length us - s) (inl NoSeatsAvailable))%list
    ∧ seatsAvailable <$> conferences (register_all us wsck st).2 !! wsck
      = Some (seatsAvailable conf - Z.of_nat (s `min` length us)).
Proof.
  induction us as [| u us IH]; intros st conf Hconf Hpos Hnd Hnew s.
  - simpl. rewrite Hconf. simpl. rewrite Nat.min_0_r. simpl.
    split; [done |]. f_equal. lia.
  - apply NoDup_cons in Hnd as [Hu Hnd].
    assert (Hhere : wsck ∉ conferenceKeysToAttend (caller_profile u st))
      by (apply Hnew, list_elem_of_here).
    simpl register_all.
    unfold register_for_conference, _conference_registration,
      transactional.
    rewrite (registration_body_run u wsck true conf st Hconf). cbv zeta.
    rewrite (bool_decide_eq_false_2 _ Hhere).
    destruct (Z.leb_spec (seatsAvailable conf) 0) as [Hfull | Hfree].
    + assert (s = 0)%nat as Hs by (unfold s; lia).
      destruct (IH st conf Hconf Hpos Hnd) as [IH1 IH2].
      { intros u' Hu'. by apply Hnew, list_elem_of_further. }
      fold (register_for_conference) in *.
      destruct (register_all us wsck st) as [rs st2]. simpl in *.
      fold s in IH1, IH2. rewrite Hs in *. simpl in *.
      split; [by rewrite IH1, Nat.sub_0_r | done].
    + set (conf1 := set_seatsAvailable conf (seatsAvailable conf - 1)).
      set (prof1 := set_conferenceKeysToAttend _ _).
      set (st1 := mkStore _ _ _ _).
      assert (Hconf1 : conferences st1 !! wsck = Some conf1)
        by apply lookup_insert_eq.
      destruct (IH st1 conf1 Hconf1) as [IH1 IH2]; [simpl; lia | done | |].
      { intros u' Hu'. unfold st1. rewrite caller_profile_other.
        - by apply Hnew, list_elem_of_further.
        - intros Heq. apply Hu. rewrite <- Heq.
          by apply list_elem_of_fmap_2. }
      destruct (register_all us wsck st1) as [rs st2]. simpl in *.
      assert (s = S (Z.to_nat (seatsAvailable conf - 1))) as Hs
        by (unfold s; lia).
      rewrite Hs. simpl. split; [by rewrite IH1 |].
      rewrite IH2. f_equal. lia.
Qed.

Lemma register_all_capacity_witness :
  conferences pycon_store_bob !! pycon_key = Some (pycon_entity 9)
  ∧ seatsAvailable <$>
      conferences (register_all [alice] pycon_key pycon_store_bob).2
        !! pycon_key
    = Some (9 - Z.of_nat (Z.to_nat 9 `min` 1)).
Proof.
  assert (H1 : conferences pycon_store_bob !! pycon_key
               = Some (pycon_entity 9)) by (vm_compute; reflexivity).
  split; [exact H1 |].
  apply (register_all_capacity [alice] pycon_key pycon_store_bob
           (pycon_entity 9) H1).
  - simpl. lia.
  - repeat constructor. intros H. inversion H.
  - intros u ->%list_elem_of_singleton. vm_compute.
    intros H. inversion H.
Defined.

(** ** Dates, written and read back *)

Lemma digit_char_digit (q : Z) :
  0 ≤ q ≤ 9 → is_digit (digit_char q) = true ∧ digit_val (digit_char q) = q.
Proof.
  intros Hq.
  assert (q = 0 ∨ q = 1 ∨ q = 2 ∨ q = 3 ∨ q = 4 ∨ q = 5 ∨ q = 6 ∨ q = 7
          ∨ q = 8 ∨ q = 9) as Hcases by lia.
  repeat destruct Hcases as [-> | Hcases]; try subst q; by split.
Qed.

Lemma days_in_month_le (y m : Z) : days_in_month y m ≤ 31.
Proof.
  unfold days_in_month.
  destruct (m =? 2); [destruct (is_leap y); lia |].
  destruct (_ || _); lia.
Qed.

Lemma list_ascii_of_string_app (s1 s2 : string) :
  list_ascii_of_string (s1 +:+ s2)
  = (list_ascii_of_string s1 ++ list_ascii_of_string s2)%list.
Proof.
  induction s1 as [| c s1 IH]; [done |].
  change (String c s1 +:+ s2) with (String c (s1 +:+ s2)).
  cbn [list_ascii_of_string app]. by rewrite IH.
Qed.

Lemma two_digits_chars (z : Z) :
  list_ascii_of_string (two_digits z)
  = [digit_char (z / 10); digit_char (z mod 10)].
Proof. reflexivity. Qed.

Lemma directive_Y_year (y : Z) (rest : list ascii) :
  1 ≤ y ≤ 9999 →
  directive_Y
    (list_ascii_of_string (two_digits (y / 100))
     ++ list_ascii_of_string (two_digits (y mod 100)) ++ rest)%list
  = Some (y, rest).
Proof.
  intros Hy. rewrite !two_digits_chars.
  cbn [app directive_Y].
  destruct (digit_char_digit (y / 100 / 10)) as [-> ->];
    [Z.to_euclidean_division_equations; lia |].
  destruct (digit_char_digit ((y / 100) mod 10)) as [-> ->];
    [Z.to_euclidean_division_equations; lia |].
  destruct (digit_char_digit (y mod 100 / 10)) as [-> ->];
    [Z.to_euclidean_division_equations; lia |].
  destruct (digit_char_digit ((y mod 100) mod 10)) as [-> ->];
    [Z.to_euclidean_division_equations; lia |].
  cbn [andb]. do 2 f_equal. Z.to_euclidean_division_equations. lia.
Qed.

Lemma directive_m_month (m : Z) (rest : list ascii) :
  1 ≤ m ≤ 12 →
  directive_m (list_ascii_of_string (two_digits m) ++ rest)%list
  = Some (m, rest).
Proof.
  intros Hm.
  assert (m = 1 ∨ m = 2 ∨ m = 3 ∨ m = 4 ∨ m = 5 ∨ m = 6 ∨ m = 7 ∨ m = 8
          ∨ m = 9 ∨ m = 10 ∨ m = 11 ∨ m = 12) as Hcases by lia.
  repeat destruct Hcases as [-> | Hcases]; try subst m; reflexivity.
Qed.

Lemma directive_d_day (d : Z) :
  1 ≤ d ≤ 31 →
  directive_d (list_ascii_of_string (two_digits d)) = Some (d, []).
Proof.
  intros Hd.
  assert (Hall :
    forallb
      (λ n, bool_decide
              (directive_d (list_ascii_of_string (two_digits (Z.of_nat n)))
               = Some (Z.of_nat n, [])))
      (seq 1 31) = true) by (vm_compute; reflexivity).
  rewrite forallb_forall in Hall.
  specialize (Hall (Z.to_nat d)).
  rewrite Z2Nat.id in Hall by lia.
  apply (bool_decide_eq_true_1 _), Hall, in_seq. lia.
Qed.

(** The string a date is shown as reads back as that date: the text of
    startDate and endDate in a form that was answered can be sent again
    as it is. *)
Theorem date_round_trip (d : date) :
  valid_date d → parse_Ymd (str_of_date d) = Some d.
Proof.
  intros (Hy & Hm & Hd). unfold parse_Ymd, str_of_date.
  pose proof (days_in_month_le (d_year d) (d_month d)) as Hmax.
  rewrite !list_ascii_of_string_app.
  rewrite directive_Y_year by done. cbn [mbind option_bind].
  cbn [list_ascii_of_string app dash]. cbn [mbind option_bind].
  rewrite directive_m_month by done. cbn [mbind option_bind].
  cbn [list_ascii_of_string app dash]. cbn [mbind option_bind].
  rewrite directive_d_day by lia. cbn [mbind option_bind].
  destruct (Z.leb_spec 1 (d_year d)); [| lia].
  destruct (Z.leb_spec 1 (d_day d)); [| lia].
  destruct (Z.leb_spec (d_day d) (days_in_month (d_year d) (d_month d)));
    [| lia].
  by destruct d.
Qed.

Lemma date_round_trip_witness :
  valid_date (mkDate 2016 2 29)
  ∧ parse_Ymd (str_of_date (mkDate 2016 2 29)) = Some (mkDate 2016 2 29).
Proof.
  assert (H : valid_date (mkDate 2016 2 29)).
  { unfold valid_date. simpl d_year. simpl d_month. simpl d_day.
    split_and!; vm_compute; discriminate. }
  split; [exact H |]. exact (date_round_trip _ H).
Defined.

(** ** Queries whose order is the datastore's *)

Lemma announcement_nonempty (names : string) :
  announcement_head +:+ " " +:+ names ≠ "".
Proof. discriminate. Qed.

Section datastore_order.
Variable scan : gmap ConfKey Conference → list (ConfKey * Conference).
Hypothesis scan_all : ∀ m, scan m ≡ₚ map_to_list m.

Lemma elem_of_scan (m : gmap ConfKey Conference) (k : ConfKey)
    (c : Conference) :
  (k, c) ∈ scan m ↔ m !! k = Some c.
Proof. rewrite (scan_all m). apply elem_of_map_to_list. Qed.

(** X19. The announcement refresh and getAnnouncement fit together: what the
    refresh returns is what getAnnouncement reads afterwards. It is empty,
    with the cache entry deleted, exactly when no Conference has between
    one and five seats left; otherwise it is the fixed sentence followed
    by the names of those Conferences, each once, separated by commas. No
    other cache entry is touched. *)
Theorem cache_announcement_read_back (st : Store)
    (memcache : gmap string string) :
  let announcement := (_cache_announcement scan st memcache).1 in
  let memcache' := (_cache_announcement scan st memcache).2 in
  get_announcement memcache' = announcement
  ∧ (announcement = ""
     ↔ ∀ k c, conferences st !! k = Some c → ¬ nearly_sold_out (k, c))
  ∧ memcache' !! MEMCACHE_ANNOUNCEMENTS_KEY
    = (if decide (announcement = "") then None else Some announcement)
  ∧ (∀ key, key ≠ MEMCACHE_ANNOUNCEMENTS_KEY →
       memcache' !! key = memcache !! key)
  ∧ (announcement ≠ "" →
     ∃ names,
       names ≡ₚ (λ kc : ConfKey * Conference, name kc.2)
                <$> filter nearly_sold_out (map_to_list (conferences st))
       ∧ announcement
         = announcement_head +:+ " " +:+ String.concat ", " names).
Proof.
  intros announcement memcache'. unfold announcement, memcache'.
  unfold _cache_announcement.
  assert (Hnone : filter nearly_sold_out (scan (conferences st)) = [] ↔
            ∀ k c, conferences st !! k = Some c → ¬ nearly_sold_out (k, c)).
  { split.
    - intros Hnil k c Hk HP.
      apply (filter_nil_not_elem_of _ _ (k, c) Hnil HP).
      by apply elem_of_scan.
    - intros Hall.
      destruct (filter nearly_sold_out (scan (conferences st)))
        as [| [k c] l] eqn:Hf; [done |].
      assert ((k, c) ∈ filter nearly_sold_out (scan (conferences st)))
        as [HP Hin]%list_elem_of_filter
        by (rewrite Hf; apply list_elem_of_here).
      apply elem_of_scan in Hin. by destruct (Hall k c Hin). }
  assert (Hperm : (λ kc : ConfKey * Conference, name kc.2)
                  <$> filter nearly_sold_out (scan (conferences st))
                  ≡ₚ (λ kc : ConfKey * Conference, name kc.2)
                     <$> filter nearly_sold_out
                           (map_to_list (conferences st)))
    by (by rewrite (scan_all (conferences st))).
  destruct (filter nearly_sold_out (scan (conferences st)))
    as [| kc l] eqn:Hf.
  - cbn [fst snd]. split_and!.
    + unfold get_announcement. by rewrite lookup_delete_eq.
    + split; [intros _; by apply Hnone | done].
    + rewrite decide_True by done. apply lookup_delete_eq.
    + intros key Hkey. by rewrite lookup_delete_ne.
    + done.
  - cbn [fst snd].
    set (names := String.concat ", " _).
    pose proof (announcement_nonempty names) as Hne.
    split_and!.
    + unfold get_announcement. rewrite lookup_insert_eq.
      cbn [truthy default from_option].
      apply String.eqb_neq in Hne. by rewrite Hne.
    + split; [done |]. intros Hall. apply Hnone in Hall. discriminate.
    + rewrite decide_False by done. apply lookup_insert_eq.
    + intros key Hkey. by rewrite lookup_insert_ne.
    + intros _. eexists. split; [exact Hperm | done].
Qed.

(** X18. getConferencesCreated writes nothing. It raises AttributeError for a
    caller who has no Profile, even one who organizes Conferences;
    otherwise it answers with one form for each stored Conference whose
    key is under the caller's id, carrying the caller's display name. *)
Theorem conferences_created_listed (st : Store) (user : User) :
  let r := get_conferences_created scan (Some user) st in
  r.2 = st
  ∧ (profiles st !! get_user_id user = None →
     r.1 = inl (AttributeError "displayName"))
  ∧ (∀ prof, profiles st !! get_user_id user = Some prof →
       ∃ forms,
         r.1 = inr forms
         ∧ forms ≡ₚ (λ kc : ConfKey * Conference,
                       _copy_conference_to_form kc.1 kc.2 (displayName prof))
                    <$> filter (λ kc : ConfKey * Conference,
                                  kc.1.1 = get_user_id user)
                          (map_to_list (conferences st))).
Proof.
  intros r. unfold r, get_conferences_created, get_profile, ancestor_query,
    mbind, M_bind, mret, M_ret.
  destruct (profiles st !! get_user_id user) as [prof |]; cbn [fst snd].
  - split_and!; [done | done |]. intros ? [= <-]. eexists.
    split; [reflexivity |]. by rewrite (scan_all (conferences st)).
  - split_and!; [done | done | done].
Qed.
End datastore_order.

(** ** The conferences a caller attends *)

Lemma comprehension_inr {A B} (f : A → result B) (l : list A)
    (ys : list B) :
  comprehension f l = inr ys ↔ Forall2 (λ x y, f x = inr y) l ys.
Proof.
  revert ys. induction l as [| x l IH]; intros ys; simpl.
  - split; [intros [= <-]; constructor | by intros ->%Forall2_nil_inv_l].
  - split.
    + destruct (f x) as [e | y] eqn:Hx; [discriminate |]. simpl.
      destruct (comprehension f l) as [e | ys'] eqn:Hl; [discriminate |].
      simpl. intros [= <-]. constructor; [done | by apply IH].
    + intros (y & ys' & Hx & Hl & ->)%Forall2_cons_inv_l.
      rewrite Hx. simpl. apply IH in Hl. by rewrite Hl.
Qed.

Lemma comprehension_inl {A B} (f : A → result B) (l : list A) (e : Exc) :
  comprehension f l = inl e → ∃ x, x ∈ l ∧ f x = inl e.
Proof.
  induction l as [| x l IH]; simpl; [discriminate |].
  destruct (f x) as [e' | y] eqn:Hx; simpl.
  - intros [= <-]. exists x. split; [apply list_elem_of_here | done].
  - destruct (comprehension f l) as [e' | ys]; simpl; [| discriminate].
    intros [= <-]. destruct (IH eq_refl) as (x' & Hin & Hx').
    exists x'. split; [by apply list_elem_of_further | done].
Qed.

(** The three comprehensions of [get_conferences_to_attend] over keys
    that all name stored Conferences. *)
Lemma attended_run (st : Store) (keys : list ConfKey) :
  (∀ k, k ∈ keys → is_Some (conferences st !! k)) →
  let confs := (λ k, conferences st !! k) <$> keys in
  ∃ organisers forms,
    comprehension organizer_of confs = inr organisers
    ∧ Forall2 (λ k o, ∃ c, conferences st !! k = Some c
                           ∧ o = organizerUserId c) keys organisers
    ∧ comprehension
        (λ kc : ConfKey * option Conference,
           match kc.2 with
           | Some conf => inr (_copy_conference_to_form kc.1 conf "")
           | None => inl (AttributeError "name")
           end) (zip keys confs) = inr forms
    ∧ Forall2 (λ k f, ∃ c, conferences st !! k = Some c
                           ∧ f = _copy_conference_to_form k c "") keys forms.
Proof.
  induction keys as [| k keys IH]; intros Hall confs.
  - exists [], []. split_and!; by try constructor.
  - destruct (Hall k) as [c Hc]; [apply list_elem_of_here |].
    destruct IH as (orgs & forms & Ho & Ho2 & Hf & Hf2).
    { intros k' Hk'. by apply Hall, list_elem_of_further. }
    exists (organizerUserId c :: orgs),
      (_copy_conference_to_form k c "" :: forms).
    unfold confs. rewrite fmap_cons, Hc.
    cbn [comprehension organizer_of zip_with]. rewrite Ho.
    cbn [mbind result_bind mret result_ret fst snd]. rewrite Hf.
    cbn [mbind result_bind mret result_ret].
    split_and!; [done | | done |]; constructor; eauto.
Qed.

Lemma names_cons (st : Store) (o : string) (os : list string) :
  comprehension name_entry
    (zip (o :: os) ((λ k, profiles st !! k) <$> o :: os))
  = match profiles st !! o with
    | None => inl (AttributeError "key")
    | Some p =>
        ys ← comprehension name_entry
               (zip os ((λ k, profiles st !! k) <$> os));
        inr ((o, displayName p) :: ys)
    end.
Proof.
  rewrite fmap_cons. cbn [zip_with comprehension].
  unfold name_entry at 1. cbn [fst snd].
  by destruct (profiles st !! o).
Qed.

Lemma names_run (st : Store) (organisers : list string) :
  (is_ok (comprehension name_entry
            (zip organisers ((λ k, profiles st !! k) <$> organisers)))
   = true
   ↔ ∀ o, o ∈ organisers → is_Some (profiles st !! o))
  ∧ ∀ e, comprehension name_entry
           (zip organisers ((λ k, profiles st !! k) <$> organisers))
         = inl e → e = AttributeError "key".
Proof.
  induction organisers as [| o os [IH1 IH2]].
  - split; [| discriminate]. split; [| done].
    intros _ o Ho. by apply elem_of_nil in Ho.
  - rewrite names_cons.
    destruct (profiles st !! o) as [p |] eqn:Hp.
    + destruct (comprehension name_entry _) as [e | names] eqn:Hrest;
        cbn [mbind result_bind].
      * split; [| intros e' [= <-]; by apply IH2].
        split; [discriminate |]. intros Hall.
        apply IH1. intros o' Ho'. by apply Hall, list_elem_of_further.
      * split; [| discriminate]. split; [| done]. intros _ o' Ho'.
        apply elem_of_cons in Ho' as [-> | Ho']; [by eexists |].
        by apply IH1.
    + split; [| by intros e [= <-]]. split; [discriminate |].
      intros Hall. destruct (Hall o) as [p Hp']; [apply list_elem_of_here |].
      congruence.
Qed.


(** ** Profiles that can always be shown *)

Lemma caller_profile_size (user : User) (st : Store) :
  sizes_valid st → size_known (caller_profile user st).
Proof.
  intros Hst. unfold caller_profile.
  destruct (profiles st !! get_user_id user) as [p |] eqn:Hp; simpl.
  - by apply (Hst _ _ Hp).
  - by eexists.
Qed.

Lemma sizes_valid_put (st : Store) (u : string) (p' : Profile)
    (confs : gmap ConfKey Conference) (n : positive) (ts : list Task) :
  sizes_valid st → size_known p' →
  sizes_valid (mkStore (<[u := p']> (profiles st)) confs n ts).
Proof.
  intros Hst Hp' v p Hp. simpl in Hp.
  destruct (decide (v = u)) as [-> | Hne].
  - rewrite lookup_insert_eq in Hp. by injection Hp as <-.
  - rewrite lookup_insert_ne in Hp by done. by apply (Hst v).
Qed.

Lemma sizes_valid_profiles (st st' : Store) :
  profiles st' = profiles st → sizes_valid st → sizes_valid st'.
Proof. intros Heq Hst u p Hp. rewrite Heq in Hp. by apply (Hst u). Qed.

Lemma registration_sizes (st : Store) (user : option User) (wsck : ConfKey)
    (reg : bool) :
  sizes_valid st → sizes_valid (_conference_registration user wsck reg st).2.
Proof.
  intros Hst. unfold _conference_registration, transactional.
  destruct user as [user |]; [| done].
  destruct (conferences st !! wsck) as [conf |] eqn:Hconf.
  2:{ by rewrite (registration_body_not_found user wsck reg st Hconf). }
  rewrite (registration_body_run user wsck reg conf st Hconf). cbv zeta.
  pose proof (caller_profile_size user st Hst) as Hsize.
  destruct reg;
    destruct (bool_decide (wsck ∈ conferenceKeysToAttend
                                   (caller_profile user st)));
    try destruct (seatsAvailable conf <=? 0); try done;
    by apply sizes_valid_put.
Qed.

Lemma create_conference_profiles (st : Store) (user : option User)
    (request : ConferenceForm) :
  profiles (_create_conference_object user request st).2 = profiles st.
Proof.
  destruct user as [user |]; [| done].
  destruct (truthy (cf_name request)) eqn:Hname.
  2:{ unfold _create_conference_object. by rewrite Hname. }
  rewrite (create_conference_run user request st Hname).
  destruct (convert_date (cf_startDate request)); [done |].
  destruct (convert_date (cf_endDate request)); [done |].
  destruct (date_property _); [done |].
  by destruct (date_property _).
Qed.

Lemma api_store_sizes (a : Api) (st : Store) :
  sizes_valid st → sizes_valid (api_store a st).
Proof.
  intros Hst.
  destruct a as [op | user | user request | wsck | user]; simpl.
  - destruct op as [user request | user wsck request | user wsck
                   | user wsck]; simpl; rewrite reply_run; simpl.
    + eapply sizes_valid_profiles; [apply create_conference_profiles | done].
    + by destruct (update_conference_step st user wsck request) as [-> _].
    + by apply registration_sizes.
    + by apply registration_sizes.
  - destruct user as [user |]; [| done]. rewrite get_profile_run.
    by apply sizes_valid_put, caller_profile_size.
  - destruct user as [user |]; [| done].
    pose proof (caller_profile_size user st Hst) as Hsize.
    rewrite do_profile_run, process_fields_ok.
    destruct (_ && _); simpl; [by apply sizes_valid_put |].
    apply sizes_valid_put; [done |]. unfold size_known. simpl.
    destruct (pm_teeShirtSize request) as [t |]; simpl; [| done].
    rewrite size_of_name_str. by eexists.
  - by rewrite getConference_run.
  - destruct user as [user |]; [| done].
    rewrite get_conferences_to_attend_run.
    by apply sizes_valid_put, caller_profile_size.
Qed.

Lemma run_api_sizes (calls : list Api) :
  ∀ st, sizes_valid st → sizes_valid (run_api calls st).
Proof.
  induction calls as [| a calls IH]; intros st Hst; [done |].
  unfold run_api. simpl. apply IH. by apply api_store_sizes.
Qed.

(** X14. After any calls from the empty store, getProfile answers every
    authenticated caller, and saveProfile answers exactly when the
    display name it is given is absent, empty or ASCII: the tee shirt
    size of a stored Profile is always the name of a size. *)
Theorem profile_endpoints_answer (calls : list Api) (user : User)
    (request : ProfileMiniForm) :
  let st := run_api calls empty_store in
  is_ok (_get_profile (Some user) st).1 = true
  ∧ (is_ok (_save_profile (Some user) request st).1 = true
     ↔ (truthy (pm_displayName request) = true →
        ascii_only (default "" (pm_displayName request)) = true)).
Proof.
  intros st.
  assert (Hst : sizes_valid st).
  { apply run_api_sizes. intros u p Hp. simpl in Hp.
    by rewrite lookup_empty in Hp. }
  destruct (caller_profile_size user st Hst) as [t Ht].
  split.
  - rewrite get_profile_run. unfold _copy_profile_to_form. simpl.
    by rewrite Ht.
  - rewrite do_profile_run, process_fields_ok.
    destruct (truthy (pm_displayName request)); simpl.
    + destruct (ascii_only _); simpl.
      * unfold _copy_profile_to_form. simpl.
        destruct (pm_teeShirtSize request) as [t' |]; simpl;
          [rewrite size_of_name_str | rewrite Ht]; by split.
      * split; [discriminate | intros H; by specialize (H eq_refl)].
    + unfold _copy_profile_to_form. simpl.
      destruct (pm_teeShirtSize request) as [t' |]; simpl;
        [rewrite size_of_name_str | rewrite Ht]; by split.
Qed.

(** ** The whole of the query validation *)

Lemma get_query_loop_errors (fs : list Filtr) :
  ∀ q e, get_query_loop fs q = inl e → e = InvalidFilterValue.
Proof.
  induction fs as [| f fs IH]; intros q e Hloop; simpl in Hloop;
    [discriminate |].
  destruct (numeric_field (f_field f)).
  - destruct (f_value f) as [s | z]; simpl in Hloop.
    + unfold int in Hloop. destruct (py_int s); simpl in Hloop;
        [by eapply IH | by injection Hloop as <-].
    + by eapply IH.
  - simpl in Hloop. by eapply IH.
Qed.


(** ** What a registration leaves alone *)

(** X7. Whatever it answers, a registration or unregistration leaves every
    other caller's Profile, every other Conference, the next id and the
    task queue as they were, and of the Conference it is for it changes
    nothing but the seats. *)
Theorem registration_frame (st : Store) (user : option User)
    (wsck : ConfKey) (reg : bool) :
  let st' := (_conference_registration user wsck reg st).2 in
  (∀ u, Some u ≠ get_user_id <$> user →
        profiles st' !! u = profiles st !! u)
  ∧ (∀ k, k ≠ wsck → conferences st' !! k = conferences st !! k)
  ∧ (set_seatsAvailable <$> conferences st' !! wsck
     = set_seatsAvailable <$> conferences st !! wsck)
  ∧ next_id st' = next_id st
  ∧ tasks st' = tasks st.
Proof.
  intros st'. unfold st', _conference_registration, transactional.
  destruct user as [user |]; [| done].
  destruct (conferences st !! wsck) as [conf |] eqn:Hconf.
  2:{ rewrite (registration_body_not_found user wsck reg st Hconf).
      cbn [snd]. by rewrite Hconf. }
  rewrite (registration_body_run user wsck reg conf st Hconf). cbv zeta.
  assert (Hput : ∀ (b : bool) (p' : Profile) (z : Z),
    let s := mkStore (<[get_user_id user := p']> (profiles st))
               (<[wsck := set_seatsAvailable conf z]> (conferences st))
               (next_id st) (tasks st) in
    (∀ u, Some u ≠ get_user_id <$> Some user →
          profiles s !! u = profiles st !! u)
    ∧ (∀ k, k ≠ wsck → conferences s !! k = conferences st !! k)
    ∧ (set_seatsAvailable <$> conferences s !! wsck
       = set_seatsAvailable <$> Some conf)
    ∧ next_id s = next_id st ∧ tasks s = tasks st).
  { intros b p' z s. unfold s. simpl. split_and!; try done.
    - intros u Hu. rewrite lookup_insert_ne; [done |]. congruence.
    - intros k Hk. by rewrite lookup_insert_ne.
    - by rewrite lookup_insert_eq. }
  destruct reg.
  - destruct (bool_decide _); [cbn [snd]; by rewrite Hconf |].
    destruct (seatsAvailable conf <=? 0); [cbn [snd]; by rewrite Hconf |].
    apply (Hput true).
  - destruct (bool_decide _); [apply (Hput true) |].
    cbn [snd]. rewrite (insert_id (conferences st) wsck conf Hconf). simpl.
    split_and!; [| done | by rewrite Hconf | done | done].
    intros u Hu. rewrite lookup_insert_ne; [done |]. congruence.
Qed.

Lemma str_of_date_chars (d : date) :
  list_ascii_of_string (str_of_date d)
  = [digit_char (d_year d / 100 / 10); digit_char ((d_year d / 100) mod 10);
     digit_char (d_year d mod 100 / 10);
     digit_char ((d_year d mod 100) mod 10); "-"%char;
     digit_char (d_month d / 10); digit_char (d_month d mod 10); "-"%char;
     digit_char (d_day d / 10); digit_char (d_day d mod 10)].
Proof.
  unfold str_of_date. rewrite !list_ascii_of_string_app, !two_digits_chars.
  reflexivity.
Qed.

Lemma slice_str_of_date (d : date) :
  slice_to 10 (str_of_date d) = str_of_date d.
Proof.
  unfold slice_to. rewrite str_of_date_chars. cbn [take].
  rewrite <- str_of_date_chars. apply string_of_list_ascii_of_string.
Qed.

Lemma str_of_date_nonempty (d : date) : str_of_date d ≠ "".
Proof.
  intros Heq. pose proof (str_of_date_chars d) as Hc.
  rewrite Heq in Hc. discriminate.
Qed.

Lemma is_digit_val (c : ascii) :
  is_digit c = true → 0 ≤ digit_val c ≤ 9.
Proof.
  unfold is_digit, digit_val.
  intros [H1%Nat.leb_le H2%Nat.leb_le]%andb_true_iff. lia.
Qed.

Lemma in_range_val (lo hi c : ascii) :
  in_range lo hi c = true →
  (nat_of_ascii lo ≤ nat_of_ascii c ≤ nat_of_ascii hi)%nat.
Proof.
  unfold in_range. intros [H1%Nat.leb_le H2%Nat.leb_le]%andb_true_iff. lia.
Qed.

Lemma directive_Y_range (l rest : list ascii) (y : Z) :
  directive_Y l = Some (y, rest) → 0 ≤ y ≤ 9999.
Proof.
  unfold directive_Y.
  destruct l as [| a [| b [| c [| d l]]]]; try discriminate.
  destruct (is_digit a) eqn:Ha; [| discriminate].
  destruct (is_digit b) eqn:Hb; [| discriminate].
  destruct (is_digit c) eqn:Hc; [| discriminate].
  destruct (is_digit d) eqn:Hd; [| discriminate].
  cbn [andb]. intros [= <- <-].
  apply is_digit_val in Ha, Hb, Hc, Hd. lia.
Qed.

Lemma directive_m_range (l rest : list ascii) (m : Z) :
  directive_m l = Some (m, rest) → 1 ≤ m ≤ 12.
Proof.
  assert (H19 : ∀ c, in_range "1" "9" c = true → 1 ≤ digit_val c ≤ 9).
  { intros c Hc%in_range_val.
    change (nat_of_ascii "1") with 49%nat in Hc.
    change (nat_of_ascii "9") with 57%nat in Hc.
    unfold digit_val. lia. }
  assert (H02 : ∀ c, in_range "0" "2" c = true → 0 ≤ digit_val c ≤ 2).
  { intros c Hc%in_range_val.
    change (nat_of_ascii "0") with 48%nat in Hc.
    change (nat_of_ascii "2") with 50%nat in Hc.
    unfold digit_val. lia. }
  unfold directive_m, or_else, two_chars, one_char.
  destruct l as [| a [| b l]]; [discriminate | |].
  - destruct (in_range "1" "9" a) eqn:Ha; [| discriminate].
    intros [= <- <-]. apply H19 in Ha. lia.
  - destruct (Ascii.eqb "1" a && in_range "0" "2" b) eqn:H1.
    { intros [= <- <-]. apply andb_true_iff in H1 as [Ha Hb].
      apply Ascii.eqb_eq in Ha as <-. apply H02 in Hb.
      change (digit_val "1") with 1. lia. }
    destruct (Ascii.eqb "0" a && in_range "1" "9" b) eqn:H2.
    { intros [= <- <-]. apply andb_true_iff in H2 as [Ha Hb].
      apply Ascii.eqb_eq in Ha as <-. apply H19 in Hb.
      change (digit_val "0") with 0. lia. }
    destruct (in_range "1" "9" a) eqn:Ha; [| discriminate].
    intros [= <- <-]. apply H19 in Ha. lia.
Qed.

(** What [parse_Ymd] reads is a date of the calendar. *)
Lemma parse_Ymd_valid (s : string) (d : date) :
  parse_Ymd s = Some d → valid_date d.
Proof.
  unfold parse_Ymd.
  destruct (directive_Y _) as [[y l1] |] eqn:HY; [| discriminate].
  cbn [mbind option_bind].
  destruct (dash l1) as [l2 |]; [| discriminate]. cbn [mbind option_bind].
  destruct (directive_m l2) as [[m l3] |] eqn:Hm; [| discriminate].
  cbn [mbind option_bind].
  destruct (dash l3) as [l4 |]; [| discriminate]. cbn [mbind option_bind].
  destruct (directive_d l4) as [[dd l5] |]; [| discriminate].
  cbn [mbind option_bind].
  destruct l5; [| discriminate].
  destruct (Z.leb_spec 1 y); [| discriminate].
  destruct (Z.leb_spec 1 dd); [| discriminate].
  destruct (Z.leb_spec dd (days_in_month y m)); [| discriminate].
  cbn [andb]. intros [= <-]. unfold valid_date. simpl.
  apply directive_Y_range in HY. apply directive_m_range in Hm. lia.
Qed.

(** X11. The dates of a form read back. A Conference stores the dates
    createConference parsed; the form made from it shows each as text
    that createConference parses to the same date. A date that is absent
    is shown as the text None, which createConference refuses. *)
Theorem form_dates_read_back (key : ConfKey) (conf : Conference)
    (displayName : string) :
  let form := _copy_conference_to_form key conf displayName in
  (∀ s d, parse_Ymd s = Some d →
     (startDate conf = Some d →
      convert_date (cf_startDate form) = inr (SlotDate d))
     ∧ (endDate conf = Some d →
        convert_date (cf_endDate form) = inr (SlotDate d)))
  ∧ (startDate conf = None →
     convert_date (cf_startDate form) = inl InvalidDate)
  ∧ (endDate conf = None →
     convert_date (cf_endDate form) = inl InvalidDate).
Proof.
  intros form. unfold form, _copy_conference_to_form.
  cbn [cf_startDate cf_endDate].
  assert (Hshown : ∀ s d, parse_Ymd s = Some d →
            convert_date (Some (str_of_date d)) = inr (SlotDate d)).
  { intros s d Hd%parse_Ymd_valid.
    rewrite (convert_date_Some _ (str_of_date_nonempty d)).
    by rewrite slice_str_of_date, date_round_trip. }
  split_and!.
  - intros s d Hd. split; intros ->; cbn [str_of_date_field]; eauto.
  - intros ->. vm_compute. reflexivity.
  - intros ->. vm_compute. reflexivity.
Qed.

Lemma form_dates_read_back_witness :
  convert_date
    (cf_startDate (_copy_conference_to_form pycon_key (pycon_entity 10)
                     "alice"))
  = inr (SlotDate (mkDate 2015 6 1)).
Proof.
  exact (proj1 (proj1 (form_dates_read_back pycon_key (pycon_entity 10)
                         "alice")
                  "2015-06-01" (mkDate 2015 6 1) eq_refl) eq_refl).
Defined.

(** ** The further properties at concrete stores *)

Lemma cache_announcement_read_back_witness :
  (∀ m : gmap ConfKey Conference, map_to_list m ≡ₚ map_to_list m)
  ∧ get_announcement (_cache_announcement map_to_list pycon_store ∅).2
    = (_cache_announcement map_to_list pycon_store ∅).1.
Proof.
  split; [done |].
  exact (proj1 (cache_announcement_read_back map_to_list
                  (λ m, reflexivity _) pycon_store ∅)).
Defined.

Lemma conferences_created_listed_witness :
  (∀ m : gmap ConfKey Conference, map_to_list m ≡ₚ map_to_list m)
  ∧ (get_conferences_created map_to_list (Some alice) pycon_store).1
    = inl (AttributeError "displayName").
Proof.
  split; [done |].
  apply (proj1 (proj2 (conferences_created_listed map_to_list
                         (λ m, reflexivity _) pycon_store alice))).
  vm_compute. reflexivity.
Defined.

